(** * The pending transaction tracker

    A shallow embedding of [PendingTransactionTracker] (the class that
    follows submitted transactions until they are confirmed, dropped or
    failed, and rebroadcasts them while they are pending), and the
    properties of it that the design document states.

    Conventions of the embedding.
    - JavaScript strings are [string]; numbers that the code only uses as
      integers are [Z] or [nat], and [None] stands for [NaN] where
      [Number.parseInt] can produce it.  Integers are exact: values beyond
      2^53, where a JavaScript number rounds, are outside the model, and so
      are characters outside ASCII ([toLowerCase] and white space are the
      ASCII ones).
    - [undefined] and a missing property are [None].
    - A [throw] or a rejected promise is the completion [Throw e].
    - An [async] method is a computation in the monad [Async]: a state
      transformer over the tracker's own state and the trace of the effects
      it has on its collaborators, which suspends at every [await].  The
      value a collaborator will deliver is a function of the request (the
      collaborator records below); when it is delivered is decided by a
      schedule.
    - [emit] appends the notification to the trace.  Subscribers are
      collaborators and are not modelled; the only field of an item the
      tracker writes is [warning], and the write is recorded in the trace. *)

From Stdlib Require Import ZArith Ascii String List Bool Lia.
From stdpp Require Import gmap strings list fin_maps.

Local Open Scope string_scope.
Local Open Scope list_scope.
Local Open Scope Z_scope.

(** ** JavaScript primitives *)

Module JS.

(** [String.prototype.toLowerCase] on ASCII. *)
Definition lower_ascii (c : ascii) : ascii :=
  let n := nat_of_ascii c in
  if ((65 <=? n)%nat && (n <=? 90)%nat)%bool then ascii_of_nat (n + 32) else c.

Fixpoint toLowerCase (s : string) : string :=
  match s with
  | EmptyString => EmptyString
  | String c s' => String (lower_ascii c) (toLowerCase s')
  end.

(** [s.includes(sub)]. *)
Fixpoint includes (s sub : string) : bool :=
  (String.prefix sub s
   || match s with
      | EmptyString => false
      | String _ s' => includes s' sub
      end)%bool.

(** Truthiness of a string-valued property: [undefined] and [''] are falsy. *)
Definition truthy (v : option string) : bool :=
  match v with
  | Some (String _ _) => true
  | _ => false
  end.

(** [a || b] on string-valued properties. *)
Definition or_else (a : option string) (b : string) : string :=
  match a with
  | Some (String c s) => String c s
  | _ => b
  end.

Definition is_whitespace (c : ascii) : bool :=
  let n := nat_of_ascii c in
  ((n =? 32)%nat || ((9 <=? n)%nat && (n <=? 13)%nat))%bool.

Fixpoint trimStart (s : string) : string :=
  match s with
  | String c s' => if is_whitespace c then trimStart s' else s
  | EmptyString => s
  end.

Definition hex_digit (c : ascii) : option Z :=
  let n := nat_of_ascii c in
  if ((48 <=? n)%nat && (n <=? 57)%nat)%bool then Some (Z.of_nat n - 48)
  else if ((97 <=? n)%nat && (n <=? 102)%nat)%bool then Some (Z.of_nat n - 87)
  else if ((65 <=? n)%nat && (n <=? 70)%nat)%bool then Some (Z.of_nat n - 55)
  else None.

(** The value of the longest prefix of hexadecimal digits; [acc] is
    [None] as long as no digit has been read. *)
Fixpoint hex_digits (s : string) (acc : option Z) : option Z :=
  match s with
  | String c s' =>
      match hex_digit c with
      | Some d => hex_digits s' (Some (16 * default 0 acc + d))
      | None => acc
      end
  | EmptyString => acc
  end.

(** [Number.parseInt(s, 16)]: leading white space, an optional sign, an
    optional [0x] or [0X], then as many hexadecimal digits as there are;
    [NaN] ([None]) when there is none. *)
Definition parseInt16 (s : string) : option Z :=
  let s1 := trimStart s in
  let '(sign, s2) :=
    match s1 with
    | String "-"%char r => (-1, r)
    | String "+"%char r => (1, r)
    | _ => (1, s1)
    end in
  let s3 :=
    match s2 with
    | String "0"%char (String "x"%char r) => r
    | String "0"%char (String "X"%char r) => r
    | _ => s2
    end in
  Z.mul sign <$> hex_digits s3 None.

(** Arithmetic and comparison on numbers that may be [NaN]: a comparison
    with [NaN] is false. *)
Definition sub (a b : option Z) : option Z :=
  match a, b with
  | Some x, Some y => Some (x - y)
  | _, _ => None
  end.

Definition le (a b : option Z) : bool :=
  match a, b with
  | Some x, Some y => x <=? y
  | _, _ => false
  end.

Definition ge (a b : option Z) : bool :=
  match a, b with
  | Some x, Some y => y <=? x
  | _, _ => false
  end.

End JS.

(** ** Data model *)

Module Error.
(** A thrown value: [name], [message], and the optional nested
    [value.message] that JSON-RPC errors carry ([value] is [None] when
    the error has no [value], [Some None] when [value] has no message). *)
Record t := mk {
  name : string;
  message : string;
  value : option (option string)
}.

Definition TypeError (msg : string) : t :=
  {| name := "TypeError"; message := msg; value := None |}.
End Error.

(** The completion of a call: it returns (or its promise fulfils), or it
    throws (or its promise rejects). *)
Inductive Completion (A : Type) : Type :=
| Normal (a : A)
| Throw (e : Error.t).
Arguments Normal {A} a.
Arguments Throw {A} e.

Module Warning.
Record t := mk {
  error : string;
  message : string
}.
End Warning.

Record TxParams := {
  nonce : string;
  from : string
}.

Record TxMeta := {
  id : Z;
  status : string;
  hash : option string;
  txParams : TxParams;
  rawTx : option string;
  firstRetryBlockNumber : option string;
  retryCount : option nat;
  warning : option Warning.t
}.

Definition set_warning (txMeta : TxMeta) (w : Warning.t) : TxMeta :=
  {| id := id txMeta; status := status txMeta; hash := hash txMeta;
     txParams := txParams txMeta; rawTx := rawTx txMeta;
     firstRetryBlockNumber := firstRetryBlockNumber txMeta;
     retryCount := retryCount txMeta; warning := Some w |}.

Record Receipt := {
  blockNumber : option string;
  blockHash : option string
}.

Record Block := {
  baseFeePerGas : option string
}.

(** The notifications, named after their event names ([tx:failed], ...). *)
Inductive Event :=
| tx_failed (txId : Z) (error : Error.t)
| tx_dropped (txId : Z)
| tx_confirmed (txId : Z) (transactionReceipt : Receipt) (baseFeePerGas : option string)
| tx_warning (txMeta : TxMeta) (error : Error.t)
| tx_retry (txMeta : TxMeta)
| tx_block_update (txMeta : TxMeta) (latestBlockNumber : string).

(** Requests to the asynchronous collaborators. *)
Inductive Request :=
| ReqGetGlobalLock
| ReqGetTransactionReceipt (txHash : string)
| ReqGetBlockByHash (blockHash : option string) (fullTx : bool)
| ReqGetTransactionCount (address : string)
| ReqPublishTransaction (rawTx : string)
| ReqApproveTransaction (txId : Z).

(** Everything the tracker does that is visible outside it. *)
Inductive Action :=
| Emit (ev : Event)
| Call (rq : Request)
| SetWarning (txId : Z) (w : Warning.t)
| LogError (msg : string)
| LogErrorObject (e : Error.t)
| ReleaseLock.

(** ** Collaborators *)

Record EthQuery := {
  getTransactionReceipt : string -> Completion (option Receipt);
  getBlockByHash : option string -> bool -> Completion (option Block);
  getTransactionCount : string -> Completion Z
}.

Record NonceTracker := {
  getGlobalLock : Completion unit
}.

(** The tracker object after construction.  A collaborator that was not
    supplied is [undefined] ([None]); [getPendingTransactions] is the
    snapshot the function returns when it is called. *)
Record PendingTransactionTracker := {
  query : EthQuery;
  nonceTracker : option NonceTracker;
  getPendingTransactions : option (list TxMeta);
  getCompletedTransactions : option (string -> list TxMeta);
  publishTransaction : option (string -> Completion string);
  approveTransaction : option (Z -> Completion unit);
  confirmTransaction : option (Z -> Completion unit)
}.

(** ** State and the [Async] monad *)

(** [droppedBlocksBufferByHash] is a JavaScript [Map]; its keys are the
    values of [txMeta.hash]. *)
Record State := {
  droppedBlocksBufferByHash : gmap (option string) nat;
  trace : list Action
}.

Definition DROPPED_BUFFER_COUNT : nat := 3.

Inductive Step (A : Type) : Type :=
| Done (s : State) (c : Completion A)
| Susp (s : State) (k : State -> Step A).
Arguments Done {A} s c.
Arguments Susp {A} s k.

Definition Async (A : Type) : Type := State -> Step A.

Definition ret {A} (a : A) : Async A := fun s => Done s (Normal a).
Definition throw {A} (e : Error.t) : Async A := fun s => Done s (Throw e).
Definition lift {A} (c : Completion A) : Async A := fun s => Done s c.

Fixpoint bind_step {A B} (p : Step A) (f : A -> Async B) : Step B :=
  match p with
  | Done s (Normal a) => f a s
  | Done s (Throw e) => Done s (Throw e)
  | Susp s k => Susp s (fun s' => bind_step (k s') f)
  end.

Definition bind {A B} (m : Async A) (f : A -> Async B) : Async B :=
  fun s => bind_step (m s) f.

(** [try { m } catch (error) { h error }] *)
Fixpoint catch_step {A} (p : Step A) (h : Error.t -> Async A) : Step A :=
  match p with
  | Done s (Normal a) => Done s (Normal a)
  | Done s (Throw e) => h e s
  | Susp s k => Susp s (fun s' => catch_step (k s') h)
  end.

Definition try_catch {A} (m : Async A) (h : Error.t -> Async A) : Async A :=
  fun s => catch_step (m s) h.

Declare Scope async_scope.
Delimit Scope async_scope with async.
Notation "x <- m ;; f" := (bind m (fun x => f))
  (at level 100, m at level 99, f at level 200, only parsing) : async_scope.
Notation "m ;; f" := (bind m (fun _ => f))
  (at level 100, f at level 200, only parsing) : async_scope.
Local Open Scope async_scope.

Definition log (a : Action) (s : State) : State :=
  {| droppedBlocksBufferByHash := droppedBlocksBufferByHash s; trace := trace s ++ [a] |}.

Definition act (a : Action) : Async unit := fun s => Done (log a s) (Normal tt).

Definition emit (ev : Event) : Async unit := act (Emit ev).

(** [await] of a call to a collaborator: the call is issued, the method
    suspends, and it continues with the call's completion. *)
Definition await {A} (rq : Request) (c : Completion A) : Async A :=
  fun s => Susp (log (Call rq) s) (fun s' => Done s' c).

Definition buffer_has (k : option string) : Async bool :=
  fun s => Done s (Normal (bool_decide (is_Some (droppedBlocksBufferByHash s !! k)))).

Definition buffer_get (k : option string) : Async (option nat) :=
  fun s => Done s (Normal (droppedBlocksBufferByHash s !! k)).

Definition buffer_set (k : option string) (v : nat) : Async unit :=
  fun s => Done {| droppedBlocksBufferByHash := <[k := v]> (droppedBlocksBufferByHash s);
                   trace := trace s |} (Normal tt).

Definition buffer_delete (k : option string) : Async unit :=
  fun s => Done {| droppedBlocksBufferByHash := delete k (droppedBlocksBufferByHash s);
                   trace := trace s |} (Normal tt).

(** Running a method with every awaited call answered at once. *)
Fixpoint run {A} (p : Step A) : State * Completion A :=
  match p with
  | Done s c => (s, c)
  | Susp s k => run (k s)
  end.

(** ** Reconciling pending transactions *)

Section Tracker.

Variable this : PendingTransactionTracker.

(** [_checkIfNonceIsTaken]: is there a completed transaction of the same
    sender, other than this one, with the same nonce?  [completed.some]
    is [existsb]; calling the collaborator when it is [undefined] throws. *)
Definition _checkIfNonceIsTaken (txMeta : TxMeta) : Completion bool :=
  let address := from (txParams txMeta) in
  match getCompletedTransactions this with
  | None => Throw (Error.TypeError "this.getCompletedTransactions is not a function")
  | Some getCompleted =>
      let completed := getCompleted address in
      Normal (existsb
                (fun otherMeta =>
                   if id otherMeta =? id txMeta then false
                   else String.eqb (nonce (txParams otherMeta)) (nonce (txParams txMeta)))
                completed)
  end.

(** [_checkIfTxWasDropped]: the network's next nonce for the sender is
    past this transaction's nonce; count such observations per hash and
    answer [true] once the count has reached [DROPPED_BUFFER_COUNT]. *)
Definition _checkIfTxWasDropped (txMeta : TxMeta) : Async bool :=
  let txHash := hash txMeta in
  let nonce := nonce (txParams txMeta) in
  let from := from (txParams txMeta) in
  networkNextNonce <- await (ReqGetTransactionCount from)
                            (getTransactionCount (query this) from) ;;
  if JS.ge (JS.parseInt16 nonce) (Some networkNextNonce) then ret false
  else
    present <- buffer_has txHash ;;
    (if negb present then buffer_set txHash 0%nat else ret tt) ;;
    currentBlockBuffer <- buffer_get txHash ;;
    match currentBlockBuffer with
    | Some n =>
        if (n <? DROPPED_BUFFER_COUNT)%nat
        then buffer_set txHash (n + 1)%nat ;; ret false
        else buffer_delete txHash ;; ret true
    | None =>
        (* [undefined < 3] is false *)
        buffer_delete txHash ;; ret true
    end.

(** How a [try] block is left: by a [return] of the method, or by falling
    through to the statement after it. *)
Inductive Flow := Return | Fallthrough.

Definition noTxHashError : Error.t :=
  {| Error.name := "NoTxHashError";
     Error.message := "We had an error while submitting this transaction, please try again.";
     Error.value := None |}.

(** What destructuring [null] throws; the text of the message is the
    engine's. *)
Definition destructure_null : Error.t :=
  Error.TypeError "Cannot destructure property 'baseFeePerGas' of null".

(** [_checkPendingTx] *)
Definition _checkPendingTx (txMeta : TxMeta) : Async unit :=
  let txId := id txMeta in
  (* Only check submitted txs *)
  if negb (String.eqb (status txMeta) "submitted") then ret tt
  else
    match hash txMeta with
    | None | Some EmptyString =>
        emit (tx_failed txId noTxHashError)
    | Some txHash =>
        taken <- lift (_checkIfNonceIsTaken txMeta) ;;
        if (taken : bool) then emit (tx_dropped txId)
        else
          flow <- try_catch
            (transactionReceipt <- await (ReqGetTransactionReceipt txHash)
                                         (getTransactionReceipt (query this) txHash) ;;
             match transactionReceipt with
             | Some receipt =>
                 if JS.truthy (blockNumber receipt) then
                   block <- await (ReqGetBlockByHash (blockHash receipt) false)
                                  (getBlockByHash (query this) (blockHash receipt) false) ;;
                   match block with
                   | Some b =>
                       emit (tx_confirmed txId receipt (baseFeePerGas b)) ;;
                       ret Return
                   | None => throw destructure_null
                   end
                 else ret Fallthrough
             | None => ret Fallthrough
             end)
            (fun error =>
               let w := {| Warning.error := Error.message error;
                           Warning.message := "There was a problem loading this transaction." |} in
               act (SetWarning txId w) ;;
               emit (tx_warning (set_warning txMeta w) error) ;;
               ret Return) ;;
          match flow with
          | Return => ret tt
          | Fallthrough =>
              dropped <- _checkIfTxWasDropped txMeta ;;
              if (dropped : bool) then emit (tx_dropped txId) else ret tt
          end
    end.

End Tracker.

(** ** Resubmitting pending transactions *)

Section Resubmit.

Variable this : PendingTransactionTracker.

(** [_resubmitTx].  The first retry block is read from the item; when the
    item has none the current block stands in for it (and the distance is
    zero).  The method returns the hash the broadcast answers, or
    [undefined]. *)
Definition _resubmitTx (txMeta : TxMeta) (latestBlockNumber : string) : Async (option string) :=
  (if negb (JS.truthy (firstRetryBlockNumber txMeta))
   then emit (tx_block_update txMeta latestBlockNumber)
   else ret tt) ;;
  let firstRetryBlockNumber := JS.or_else (firstRetryBlockNumber txMeta) latestBlockNumber in
  let txBlockDistance :=
    JS.sub (JS.parseInt16 latestBlockNumber) (JS.parseInt16 firstRetryBlockNumber) in
  let retryCount := default 0%nat (retryCount txMeta) in
  (* Exponential backoff to limit retries at publishing *)
  if JS.le txBlockDistance (Some (2 ^ Z.of_nat retryCount - 1)) then ret None
  else
    match rawTx txMeta with
    | None =>
        (* Only auto-submit already-signed txs *)
        match approveTransaction this with
        | None => throw (Error.TypeError "this.approveTransaction is not a function")
        | Some approve =>
            await (ReqApproveTransaction (id txMeta)) (approve (id txMeta)) ;;
            ret None
        end
    | Some rawTx =>
        match publishTransaction this with
        | None => throw (Error.TypeError "this.publishTransaction is not a function")
        | Some publish =>
            txHash <- await (ReqPublishTransaction rawTx) (publish rawTx) ;;
            emit (tx_retry txMeta) ;;
            ret (Some txHash)
        end
    end.

(** [error.value?.message?.toLowerCase() || error.message.toLowerCase()] *)
Definition errorMessage (error : Error.t) : string :=
  match Error.value error with
  | Some (Some m) =>
      JS.or_else (Some (JS.toLowerCase m)) (JS.toLowerCase (Error.message error))
  | _ => JS.toLowerCase (Error.message error)
  end.

Definition isKnownTx (errorMessage : string) : bool :=
  (* geth *)
  JS.includes errorMessage "replacement transaction underpriced" ||
  JS.includes errorMessage "known transaction" ||
  (* parity *)
  JS.includes errorMessage "gas price too low to replace" ||
  JS.includes errorMessage "transaction with the same hash was already imported" ||
  (* other *)
  JS.includes errorMessage "gateway timeout" ||
  JS.includes errorMessage "nonce too low".

Definition resubmit_warning (error : Error.t) : Warning.t :=
  {| Warning.error := errorMessage error;
     Warning.message := "There was an error when resubmitting this transaction." |}.

(** The handler [resubmitPendingTxs] attaches with [.catch] to each
    [_resubmitTx]. *)
Definition resubmit_catch (txMeta : TxMeta) (error : Error.t) : Async unit :=
  (* ignore resubmit warnings, return early *)
  if isKnownTx (errorMessage error) then ret tt
  else
    act (SetWarning (id txMeta) (resubmit_warning error)) ;;
    emit (tx_warning (set_warning txMeta (resubmit_warning error)) error).

(** The body of the [forEach] of [resubmitPendingTxs], for one item. *)
Definition resubmit_one (blockNumber : string) (txMeta : TxMeta) : Async unit :=
  try_catch (_resubmitTx txMeta blockNumber ;; ret tt) (resubmit_catch txMeta).

End Resubmit.

(** ** The operations on a whole pending set

    An operation starts one asynchronous method per pending item: each runs
    up to its first [await], in the order of the items.  From then on a
    schedule, the list of the indices of the items in the order in which
    their awaited answers arrive, decides which item continues; each
    continues up to its next [await] or to its end. *)

(** The promise of a started method: pending, with the rest of the method
    after the [await] it is suspended at, or settled. *)
Inductive Promise :=
| Pending (k : State -> Step unit)
| Settled (c : Completion unit).

Definition to_promise (p : Step unit) : State * Promise :=
  match p with
  | Done s c => (s, Settled c)
  | Susp s k => (s, Pending k)
  end.

(** [items.map(start)] *)
Fixpoint start_all (ms : list (Async unit)) (s : State) : State * list Promise :=
  match ms with
  | [] => (s, [])
  | m :: ms' =>
      let '(s1, t) := to_promise (m s) in
      let '(s2, ts) := start_all ms' s1 in
      (s2, t :: ts)
  end.

Definition resume (t : Promise) (s : State) : State * Promise :=
  match t with
  | Pending k => to_promise (k s)
  | Settled c => (s, t)
  end.

(** The answer awaited by item [i] arrives (nothing happens when the item
    has settled or does not exist). *)
Definition deliver (i : nat) (st : State * list Promise) : State * list Promise :=
  let '(s, ts) := st in
  match ts !! i with
  | Some t => let '(s', t') := resume t s in (s', <[i := t']> ts)
  | None => (s, ts)
  end.

Definition is_settled (t : Promise) : bool :=
  match t with
  | Settled _ => true
  | Pending _ => false
  end.

Fixpoint first_rejection (ts : list Promise) : option Error.t :=
  match ts with
  | [] => None
  | Settled (Throw e) :: _ => Some e
  | _ :: ts' => first_rejection ts'
  end.

(** [Promise.all]: rejected as soon as one of the promises is rejected
    (with the error of the first one, when several are rejected before any
    answer arrives), fulfilled once all are fulfilled, pending otherwise. *)
Definition promise_all (ts : list Promise) : option (Completion unit) :=
  match first_rejection ts with
  | Some e => Some (Throw e)
  | None => if forallb is_settled ts then Some (Normal tt) else None
  end.

Section Operations.

Variable this : PendingTransactionTracker.

(** [resubmitPendingTxs]: a synchronous method; it throws when the
    pending-set provider is missing, and otherwise leaves one started
    resubmission per item behind, which the schedule then drives. *)
Definition resubmitPendingTxs (blockNumber : string) (s : State)
    : Completion unit * (State * list Promise) :=
  match getPendingTransactions this with
  | None => (Throw (Error.TypeError "this.getPendingTransactions is not a function"), (s, []))
  | Some pending =>
      (* only try resubmitting if their are transactions to resubmit *)
      if (length pending =? 0)%nat then (Normal tt, (s, []))
      else (Normal tt, start_all (map (resubmit_one this blockNumber) pending) s)
  end.

Definition resubmit_tick (blockNumber : string) (schedule : list nat) (s : State)
    : Completion unit * (State * list Promise) :=
  let '(c, st) := resubmitPendingTxs blockNumber s in
  (c, foldl (fun st i => deliver i st) st schedule).

(** [updatePendingTxs] after its lock has been acquired and the checks have
    been started: the rest of the [try] statement, given how
    [await Promise.all(...)] completes, and the release of the lock. *)
Definition updatePendingTxs_rest (batch : Completion unit) : Async unit :=
  try_catch (lift batch)
    (fun error =>
       act (LogError "PendingTransactionTracker - Error updating pending transactions") ;;
       act (LogErrorObject error)) ;;
  act ReleaseLock.

(** The state of a call of [updatePendingTxs]: the tracker's state, the
    promises of the checks it has started, and how the call itself has
    completed ([None] while it awaits). *)
Record Tick := {
  tick_state : State;
  tick_promises : list Promise;
  tick_result : option (Completion unit)
}.

(** [updatePendingTxs] continues as soon as [Promise.all] settles. *)
Definition continue (s : State) (ts : list Promise) : Tick :=
  match promise_all ts with
  | Some batch =>
      let '(s', c) := run (updatePendingTxs_rest batch s) in
      {| tick_state := s'; tick_promises := ts; tick_result := Some c |}
  | None => {| tick_state := s; tick_promises := ts; tick_result := None |}
  end.

(** [updatePendingTxs] up to [await Promise.all(...)]. *)
Definition updatePendingTxs_start (s : State) : Tick :=
  match nonceTracker this with
  | None =>
      {| tick_state := s; tick_promises := [];
         tick_result :=
           Some (Throw (Error.TypeError
                          "Cannot read properties of undefined (reading 'getGlobalLock')")) |}
  | Some nonceTracker =>
      let s0 := log (Call ReqGetGlobalLock) s in
      match getGlobalLock nonceTracker with
      | Throw e => {| tick_state := s0; tick_promises := []; tick_result := Some (Throw e) |}
      | Normal nonceGlobalLock =>
          match getPendingTransactions this with
          | None =>
              let '(s', c) :=
                run (updatePendingTxs_rest
                       (Throw (Error.TypeError "this.getPendingTransactions is not a function"))
                       s0) in
              {| tick_state := s'; tick_promises := []; tick_result := Some c |}
          | Some pendingTxs =>
              let '(s1, ts) := start_all (map (_checkPendingTx this) pendingTxs) s0 in
              continue s1 ts
          end
      end
  end.

(** An answer arrives for item [i]; if that settles [Promise.all] while
    [updatePendingTxs] awaits it, [updatePendingTxs] continues. *)
Definition tick_deliver (t : Tick) (i : nat) : Tick :=
  let '(s, ts) := deliver i (tick_state t, tick_promises t) in
  match tick_result t with
  | Some c => {| tick_state := s; tick_promises := ts; tick_result := Some c |}
  | None => continue s ts
  end.

Definition updatePendingTxs (schedule : list nat) (s : State) : Tick :=
  foldl tick_deliver (updatePendingTxs_start s) schedule.

End Operations.

(** ** Construction *)

Module Config.
Record t (Provider : Type) := mk {
  query : option EthQuery;
  provider : option Provider;
  nonceTracker : option NonceTracker;
  getPendingTransactions : option (list TxMeta);
  getCompletedTransactions : option (string -> list TxMeta);
  publishTransaction : option (string -> Completion string);
  approveTransaction : option (Z -> Completion unit);
  confirmTransaction : option (Z -> Completion unit)
}.
Arguments mk {Provider}.
Arguments query {Provider}.
Arguments provider {Provider}.
Arguments nonceTracker {Provider}.
Arguments getPendingTransactions {Provider}.
Arguments getCompletedTransactions {Provider}.
Arguments publishTransaction {Provider}.
Arguments approveTransaction {Provider}.
Arguments confirmTransaction {Provider}.
End Config.

Section Constructor.

(** [EthQuery] is a library class; [newEthQuery] is its constructor, which
    may throw. *)
Variable Provider : Type.
Variable newEthQuery : option Provider -> Completion EthQuery.

(** The constructor: [config.query || new EthQuery(config.provider)], and
    the other collaborators as they are given. *)
Definition constructor (config : Config.t Provider) : Completion PendingTransactionTracker :=
  match
    match Config.query config with
    | Some q => Normal q
    | None => newEthQuery (Config.provider config)
    end
  with
  | Throw e => Throw e
  | Normal q =>
      Normal {| query := q;
                nonceTracker := Config.nonceTracker config;
                getPendingTransactions := Config.getPendingTransactions config;
                getCompletedTransactions := Config.getCompletedTransactions config;
                publishTransaction := Config.publishTransaction config;
                approveTransaction := Config.approveTransaction config;
                confirmTransaction := Config.confirmTransaction config |}
  end.

(** The buffer of a new tracker: [new Map()]. *)
Definition new_state : State := {| droppedBlocksBufferByHash := ∅; trace := [] |}.

End Constructor.

(** * Specifications

    ** Reading a trace *)

(** The notifications in a trace, and the calls to collaborators in it. *)
Definition events (tr : list Action) : list Event :=
  omap (fun a => match a with Emit ev => Some ev | _ => None end) tr.

Definition calls (tr : list Action) : list Request :=
  omap (fun a => match a with Call rq => Some rq | _ => None end) tr.

(** ** One item at a time *)

Definition init (b : gmap (option string) nat) : State :=
  {| droppedBlocksBufferByHash := b; trace := [] |}.

(** One reconcile tick for one item, from the buffer [b]: the buffer and
    the trace it leaves, and how it completes. *)
Definition check (this : PendingTransactionTracker) (txMeta : TxMeta)
    (b : gmap (option string) nat) : State * Completion unit :=
  run (_checkPendingTx this txMeta (init b)).

(** ** The conditions the document names, on the inputs *)

Definition submitted (txMeta : TxMeta) : Prop := status txMeta = "submitted".

(** The item has the observed hash [txHash]. *)
Definition observed (txMeta : TxMeta) (txHash : string) : Prop :=
  hash txMeta = Some txHash /\ txHash <> "".

(** Some completed item of the same sender has the same nonce and another
    identity. *)
Definition nonce_collision (this : PendingTransactionTracker) (txMeta : TxMeta) : Prop :=
  exists getCompleted otherMeta,
    getCompletedTransactions this = Some getCompleted /\
    In otherMeta (getCompleted (from (txParams txMeta))) /\
    id otherMeta <> id txMeta /\
    nonce (txParams otherMeta) = nonce (txParams txMeta).

Definition no_nonce_collision (this : PendingTransactionTracker) (txMeta : TxMeta) : Prop :=
  exists getCompleted,
    getCompletedTransactions this = Some getCompleted /\
    forall otherMeta,
      In otherMeta (getCompleted (from (txParams txMeta))) ->
      id otherMeta = id txMeta \/ nonce (txParams otherMeta) <> nonce (txParams txMeta).

(** The answer to the receipt query carries no block number. *)
Definition no_receipt (r : option Receipt) : Prop :=
  match r with
  | Some receipt => JS.truthy (blockNumber receipt) = false
  | None => True
  end.

(** What [_checkIfTxWasDropped] does to the buffer entry of the hash when
    the nonce test does not end it: the counter after the observation, or
    [None] when the observation is the one that declares the drop. *)
Definition bump (c : option nat) : option nat :=
  match c with
  | None => Some 1%nat
  | Some n => if (n <? DROPPED_BUFFER_COUNT)%nat then Some (n + 1)%nat else None
  end.

(** The warnings the trace writes into the item with identity [txId], the
    last one last, and the item after them. *)
Definition written (txId : Z) (tr : list Action) : list Warning.t :=
  omap (fun a => match a with
                 | SetWarning i w => if i =? txId then Some w else None
                 | _ => None
                 end) tr.

Definition after (tr : list Action) (txMeta : TxMeta) : TxMeta :=
  match last (written (id txMeta) tr) with
  | Some w => set_warning txMeta w
  | None => txMeta
  end.

(** The warning [_checkPendingTx] records for the error [e]. *)
Definition loading_warning (e : Error.t) : Warning.t :=
  {| Warning.error := Error.message e;
     Warning.message := "There was a problem loading this transaction." |}.

(** The item appears superseded: the check reaches the ledger, finds no
    receipt, and the network's next nonce for the sender is above the item's
    nonce. *)
Definition superseded (this : PendingTransactionTracker) (txMeta : TxMeta)
    (txHash : string) : Prop :=
  no_nonce_collision this txMeta /\
  (exists r, getTransactionReceipt (query this) txHash = Normal r /\ no_receipt r) /\
  (exists n next,
      JS.parseInt16 (nonce (txParams txMeta)) = Some n /\
      getTransactionCount (query this) (from (txParams txMeta)) = Normal next /\
      n < next).

(** The state a check leaves. *)
Definition checked (this : PendingTransactionTracker) (txMeta : TxMeta)
    (b : gmap (option string) nat) : State :=
  fst (check this txMeta b).

(** The distance, in blocks, between the current block and the first retry
    block of the item ([NaN] when one of them does not parse), and the
    retry count with its default. *)
Definition txBlockDistance (txMeta : TxMeta) (latestBlockNumber : string) : option Z :=
  JS.sub (JS.parseInt16 latestBlockNumber)
         (JS.parseInt16 (JS.or_else (firstRetryBlockNumber txMeta) latestBlockNumber)).

Definition retries (txMeta : TxMeta) : Z := Z.of_nat (default 0%nat (retryCount txMeta)).

(** What resubmission does when it is attempted: it approves an item that
    has no signed payload and broadcasts the payload of one that has. *)
Definition resubmission (txMeta : TxMeta) : Request :=
  match rawTx txMeta with
  | Some raw => ReqPublishTransaction raw
  | None => ReqApproveTransaction (id txMeta)
  end.

(** One resubmission of one item, from the buffer [b]. *)
Definition resubmit (this : PendingTransactionTracker) (txMeta : TxMeta)
    (latestBlockNumber : string) (b : gmap (option string) nat)
    : State * Completion (option string) :=
  run (_resubmitTx this txMeta latestBlockNumber (init b)).

Definition is_block_update (ev : Event) : bool :=
  match ev with
  | tx_block_update _ _ => true
  | _ => false
  end.

(** The terminal notifications. *)
Definition is_terminal (ev : Event) : bool :=
  match ev with
  | tx_failed _ _ | tx_dropped _ | tx_confirmed _ _ _ => true
  | _ => false
  end.

(** The error messages of a resubmission that the document lists as
    benign. *)
Definition known_messages : list string :=
  ["replacement transaction underpriced"; "known transaction";
   "gas price too low to replace";
   "transaction with the same hash was already imported";
   "gateway timeout"; "nonce too low"].

(** The message of an error that the classification reads: the nested
    [value.message] when there is a non-empty one, the error's own message
    otherwise. *)
Definition reported_message (e : Error.t) : string :=
  match Error.value e with
  | Some (Some (String c m)) => String c m
  | _ => Error.message e
  end.

(** The reported message contains, up to case, one of the benign texts. *)
Definition known_benign (e : Error.t) : Prop :=
  exists k pre post,
    In k known_messages /\
    JS.toLowerCase (reported_message e) = (pre ++ k ++ post)%string.

(** The notification [_resubmitTx] starts with. *)
Definition announced (txMeta : TxMeta) (latestBlockNumber : string) : list Action :=
  if JS.truthy (firstRetryBlockNumber txMeta) then []
  else [Emit (tx_block_update txMeta latestBlockNumber)].

(** One resubmission of one item with the handler attached. *)
Definition resubmit_caught (this : PendingTransactionTracker) (txMeta : TxMeta)
    (latestBlockNumber : string) (b : gmap (option string) nat) : State * Completion unit :=
  run (resubmit_one this latestBlockNumber txMeta (init b)).

(** ** Properties of suspended methods *)

(** Every stop of the method (each [await] and its end) is related by [R]
    to the state the method started or continued from. *)
Fixpoint follows {A} (R : State -> State -> Prop) (s0 : State) (p : Step A) : Prop :=
  match p with
  | Done s _ => R s0 s
  | Susp s k => R s0 s /\ forall s', follows R s' (k s')
  end.

(** The method suspends at most [n] times. *)
Fixpoint awaits_le {A} (n : nat) (p : Step A) {struct p} : Prop :=
  match p with
  | Done _ _ => True
  | Susp _ k =>
      match n with
      | O => False
      | S n' => forall s', awaits_le n' (k s')
      end
  end.

(** The method suspends at most [n] times, and fewer when it ends with a
    completion [c] for which something is still to follow: the number of
    its suspensions and [rest c] together are at most [n]. *)
Fixpoint awaits_within {A} (n : nat) (rest : Completion A -> nat) (p : Step A) {struct p}
    : Prop :=
  match p with
  | Done _ c => (rest c <= n)%nat
  | Susp _ k =>
      match n with
      | O => False
      | S n' => forall s', awaits_within n' rest (k s')
      end
  end.

(** After the [try] block of [_checkPendingTx] one more [await] can follow,
    and only when the block is left by falling through. *)
Definition after_try (c : Completion Flow) : nat :=
  match c with
  | Normal Fallthrough => 1%nat
  | _ => 0%nat
  end.

Definition promise_follows (R : State -> State -> Prop) (t : Promise) : Prop :=
  match t with
  | Pending k => forall s, follows R s (k s)
  | Settled _ => True
  end.

Definition promise_awaits_le (n : nat) (t : Promise) : Prop :=
  match t with
  | Pending k => forall s, awaits_le n (k s)
  | Settled _ => True
  end.

(** Every counter of the buffer is between 1 and the threshold. *)
Definition buffer_ok (b : gmap (option string) nat) : Prop :=
  forall k n, b !! k = Some n -> (1 <= n <= DROPPED_BUFFER_COUNT)%nat.

Definition with_buffer (b : gmap (option string) nat) (s : State) : State :=
  {| droppedBlocksBufferByHash := b; trace := trace s |}.

(** A schedule delivers to each of the first [n] items at least [m]
    times. *)
Definition delivers_at_least (m n : nat) (schedule : list nat) : Prop :=
  forall i, (i < n)%nat -> (m <= count_occ Nat.eq_dec schedule i)%nat.

(** The relations between states that the operations are shown to respect:
    the buffer stays well formed, the buffer is not touched, and the trace
    is only extended. *)
Definition keeps_buffer_ok (s0 s : State) : Prop :=
  buffer_ok (droppedBlocksBufferByHash s0) -> buffer_ok (droppedBlocksBufferByHash s).

Definition same_buffer (s0 s : State) : Prop :=
  droppedBlocksBufferByHash s = droppedBlocksBufferByHash s0.

Definition extends_trace (s0 s : State) : Prop :=
  exists l, trace s = trace s0 ++ l.

(** [updatePendingTxs] has not failed. *)
Definition no_error (r : option (Completion unit)) : Prop :=
  r = None \/ r = Some (Normal tt).

(** The check of the item counts an observation, as the code decides it:
    the item is submitted and has a hash, no completed item holds its
    nonce, the ledger has no receipt for it, and the comparison "the item's
    nonce is at or above the network's next nonce" is false. *)
Definition counted (this : PendingTransactionTracker) (txMeta : TxMeta) : Prop :=
  submitted txMeta /\
  JS.truthy (hash txMeta) = true /\
  _checkIfNonceIsTaken this txMeta = Normal false /\
  (exists txHash r,
      hash txMeta = Some txHash /\
      getTransactionReceipt (query this) txHash = Normal r /\ no_receipt r) /\
  (exists next,
      getTransactionCount (query this) (from (txParams txMeta)) = Normal next /\
      JS.ge (JS.parseInt16 (nonce (txParams txMeta))) (Some next) = false).

(** Each item is either settled or settles within the deliveries the
    schedule still has for it; [fuel i] bounds the suspensions item [i] has
    left. *)
Definition will_settle (ts : list Promise) (fuel : nat -> nat) (schedule : list nat) : Prop :=
  forall i t, ts !! i = Some t ->
    is_settled t = true \/
    (promise_awaits_le (fuel i) t /\ (fuel i < count_occ Nat.eq_dec schedule i)%nat).

(** [updatePendingTxs] returns as soon as [Promise.all] has settled, and
    then normally, with the lock released. *)
Definition returned (t : Tick) : Prop :=
  (tick_result t = None -> promise_all (tick_promises t) = None) /\
  no_error (tick_result t) /\
  (tick_result t = Some (Normal tt) -> In ReleaseLock (trace (tick_state t))) /\
  Forall (promise_follows extends_trace) (tick_promises t).

(** ** The outcomes of one check *)

(** Every way [_checkPendingTx] can go, as the state it leaves from the
    buffer [b] and its completion: the item is skipped; it has no hash; the
    nonce test throws; the nonce is taken; a query inside the [try] fails
    (or the block is [null]); the item is confirmed; the next-nonce query
    fails; the nonce is not superseded; the observation is counted; the
    drop is declared. *)
Inductive check_outcome (txMeta : TxMeta) (b : gmap (option string) nat)
    : State * Completion unit -> Prop :=
| outcome_skipped :
    check_outcome txMeta b (init b, Normal tt)
| outcome_no_hash :
    check_outcome txMeta b
      ({| droppedBlocksBufferByHash := b;
          trace := [Emit (tx_failed (id txMeta) noTxHashError)] |}, Normal tt)
| outcome_nonce_test_throws e :
    check_outcome txMeta b (init b, Throw e)
| outcome_nonce_taken :
    check_outcome txMeta b
      ({| droppedBlocksBufferByHash := b;
          trace := [Emit (tx_dropped (id txMeta))] |}, Normal tt)
| outcome_warning txHash asked e :
    hash txMeta = Some txHash ->
    asked = [ReqGetTransactionReceipt txHash] \/
    (exists blockHash0,
        asked = [ReqGetTransactionReceipt txHash; ReqGetBlockByHash blockHash0 false]) ->
    check_outcome txMeta b
      ({| droppedBlocksBufferByHash := b;
          trace := map Call asked ++
                   [SetWarning (id txMeta) (loading_warning e);
                    Emit (tx_warning (set_warning txMeta (loading_warning e)) e)] |},
       Normal tt)
| outcome_confirmed txHash receipt block :
    hash txMeta = Some txHash ->
    check_outcome txMeta b
      ({| droppedBlocksBufferByHash := b;
          trace := [Call (ReqGetTransactionReceipt txHash);
                    Call (ReqGetBlockByHash (blockHash receipt) false);
                    Emit (tx_confirmed (id txMeta) receipt (baseFeePerGas block))] |},
       Normal tt)
| outcome_count_fails txHash e :
    hash txMeta = Some txHash ->
    check_outcome txMeta b
      ({| droppedBlocksBufferByHash := b;
          trace := [Call (ReqGetTransactionReceipt txHash);
                    Call (ReqGetTransactionCount (from (txParams txMeta)))] |},
       Throw e)
| outcome_not_superseded txHash :
    hash txMeta = Some txHash ->
    check_outcome txMeta b
      ({| droppedBlocksBufferByHash := b;
          trace := [Call (ReqGetTransactionReceipt txHash);
                    Call (ReqGetTransactionCount (from (txParams txMeta)))] |},
       Normal tt)
| outcome_counted txHash n :
    hash txMeta = Some txHash ->
    bump (b !! Some txHash) = Some n ->
    check_outcome txMeta b
      ({| droppedBlocksBufferByHash := <[Some txHash := n]> b;
          trace := [Call (ReqGetTransactionReceipt txHash);
                    Call (ReqGetTransactionCount (from (txParams txMeta)))] |},
       Normal tt)
| outcome_drop_declared txHash :
    hash txMeta = Some txHash ->
    bump (b !! Some txHash) = None ->
    check_outcome txMeta b
      ({| droppedBlocksBufferByHash := delete (Some txHash) b;
          trace := [Call (ReqGetTransactionReceipt txHash);
                    Call (ReqGetTransactionCount (from (txParams txMeta)))]
                   ++ [Emit (tx_dropped (id txMeta))] |},
       Normal tt).

(** The item a notification is about. *)
Definition event_item (ev : Event) : Z :=
  match ev with
  | tx_failed txId _ | tx_dropped txId | tx_confirmed txId _ _ => txId
  | tx_warning txMeta _ | tx_retry txMeta | tx_block_update txMeta _ => id txMeta
  end.

(** ** A series of checks of one item *)

(** The checks of one item on successive ticks, each against the tracker
    and ledger of its tick: the buffer they leave and the notifications
    they emit, in order. *)
Fixpoint checks (ticks : list PendingTransactionTracker) (txMeta : TxMeta)
    (b : gmap (option string) nat) : gmap (option string) nat * list Event :=
  match ticks with
  | [] => (b, [])
  | this :: ticks' =>
      let s := checked this txMeta b in
      let '(b', evs) := checks ticks' txMeta (droppedBlocksBufferByHash s) in
      (b', events (trace s) ++ evs)
  end.

(** [counted_times txMeta ticks m]: exactly [m] of the ticks count an
    observation of the item. *)
Inductive counted_times (txMeta : TxMeta) : list PendingTransactionTracker -> nat -> Prop :=
| counted_nil : counted_times txMeta [] 0
| counted_yes this ticks m :
    counted this txMeta -> counted_times txMeta ticks m ->
    counted_times txMeta (this :: ticks) (S m)
| counted_no this ticks m :
    ~ counted this txMeta -> counted_times txMeta ticks m ->
    counted_times txMeta (this :: ticks) m.

(** ** What the operations put in the trace *)

(** The actions of a check: the four notifications of reconcile-pending,
    the three ledger queries, and the write of the warning. *)
Definition check_action (a : Action) : bool :=
  match a with
  | Emit (tx_failed _ _) | Emit (tx_dropped _) | Emit (tx_confirmed _ _ _)
  | Emit (tx_warning _ _) => true
  | Call (ReqGetTransactionReceipt _) | Call (ReqGetBlockByHash _ _)
  | Call (ReqGetTransactionCount _) => true
  | SetWarning _ _ => true
  | _ => false
  end.

(** The actions of a resubmission: its three notifications, the calls of
    the approve and broadcast functions, and the write of the warning. *)
Definition resubmit_action (a : Action) : bool :=
  match a with
  | Emit (tx_block_update _ _) | Emit (tx_retry _) | Emit (tx_warning _ _) => true
  | Call (ReqPublishTransaction _) | Call (ReqApproveTransaction _) => true
  | SetWarning _ _ => true
  | _ => false
  end.

(** The actions of [updatePendingTxs] itself. *)
Definition caller_action (a : Action) : bool :=
  match a with
  | Call ReqGetGlobalLock | LogError _ | LogErrorObject _ | ReleaseLock => true
  | _ => false
  end.

Definition is_release (a : Action) : bool :=
  match a with
  | ReleaseLock => true
  | _ => false
  end.

(** How often a trace releases the lock. *)
Definition releases (tr : list Action) : nat :=
  length (filter (fun a => is_release a = true) tr).

(** The state [s] extends the trace of [s0] by actions that satisfy [P]. *)
Definition appends (P : Action -> bool) (s0 s : State) : Prop :=
  exists l, trace s = trace s0 ++ l /\ Forall (fun a => P a = true) l.

(** The method never completes by throwing. *)
Fixpoint fulfils {A} (p : Step A) : Prop :=
  match p with
  | Done _ (Normal _) => True
  | Done _ (Throw _) => False
  | Susp _ k => forall s', fulfils (k s')
  end.

Definition promise_fulfils (t : Promise) : Prop :=
  match t with
  | Pending k => forall s, fulfils (k s)
  | Settled (Normal _) => True
  | Settled (Throw _) => False
  end.

(** The entry of the buffer under the key [k] is as it was. *)
Definition keeps_entry (k : option string) (s0 s : State) : Prop :=
  droppedBlocksBufferByHash s !! k = droppedBlocksBufferByHash s0 !! k.

(** The actions of a reconcile tick. *)
Definition tick_action (a : Action) : bool := check_action a || caller_action a.

(** ** Concrete trackers and items *)

Module Examples.
Definition networkError : Error.t :=
  {| Error.name := "Error"; Error.message := "Failed to fetch"; Error.value := None |}.
Definition q0 : EthQuery :=
  {| getTransactionReceipt := fun _ => Normal None;
     getBlockByHash := fun _ _ => Normal None;
     getTransactionCount := fun _ => Normal 5 |}.
Definition tracker (q : EthQuery) (pending completed : list TxMeta) : PendingTransactionTracker :=
  {| query := q; nonceTracker := Some {| getGlobalLock := Normal tt |};
     getPendingTransactions := Some pending;
     getCompletedTransactions := Some (fun _ => completed);
     publishTransaction := Some (fun _ => Normal "0xabc");
     approveTransaction := Some (fun _ => Normal tt);
     confirmTransaction := None |}.
Definition tx0 : TxMeta :=
  {| id := 1; status := "submitted"; hash := Some "0xabc";
     txParams := {| nonce := "0x2"; from := "0xf00" |};
     rawTx := Some "0xraw"; firstRetryBlockNumber := None; retryCount := None;
     warning := None |}.
(** A completed transaction of the same sender with the nonce of [tx0]. *)
Definition tx_other : TxMeta :=
  {| id := 2; status := "confirmed"; hash := Some "0xdef";
     txParams := {| nonce := "0x2"; from := "0xf00" |};
     rawTx := Some "0xraw2"; firstRetryBlockNumber := None; retryCount := None;
     warning := None |}.
Definition receipt0 : Receipt := {| blockNumber := Some "0x10"; blockHash := Some "0xb10c" |}.
Definition block0 : Block := {| baseFeePerGas := Some "0x7" |}.
(** A ledger on which [tx0] is mined. *)
Definition q_mined : EthQuery :=
  {| getTransactionReceipt := fun _ => Normal (Some receipt0);
     getBlockByHash := fun _ _ => Normal (Some block0);
     getTransactionCount := fun _ => Normal 5 |}.
(** A ledger that cannot be reached. *)
Definition q_down : EthQuery :=
  {| getTransactionReceipt := fun _ => Throw networkError;
     getBlockByHash := fun _ _ => Throw networkError;
     getTransactionCount := fun _ => Throw networkError |}.
Definition t0 : PendingTransactionTracker := tracker q0 [tx0] [].
(** Two pending items: the next-nonce query for the sender of [txA] fails,
    and [txB] is mined. *)
Definition txA : TxMeta :=
  {| id := 10; status := "submitted"; hash := Some "0xaaa";
     txParams := {| nonce := "0x2"; from := "0xf0a" |};
     rawTx := Some "0xrawa"; firstRetryBlockNumber := None; retryCount := None;
     warning := None |}.
Definition txB : TxMeta :=
  {| id := 11; status := "submitted"; hash := Some "0xbbb";
     txParams := {| nonce := "0x7"; from := "0xf0b" |};
     rawTx := Some "0xrawb"; firstRetryBlockNumber := None; retryCount := None;
     warning := None |}.
Definition q_AB : EthQuery :=
  {| getTransactionReceipt :=
       fun txHash => if String.eqb txHash "0xbbb" then Normal (Some receipt0) else Normal None;
     getBlockByHash := fun _ _ => Normal (Some block0);
     getTransactionCount :=
       fun address => if String.eqb address "0xf0a" then Throw networkError else Normal 9 |}.
Definition tAB : PendingTransactionTracker := tracker q_AB [txA; txB] [].
(** An item in its third resubmission, first retried at block 16. *)
Definition tx_retried : TxMeta :=
  {| id := 3; status := "submitted"; hash := Some "0xccc";
     txParams := {| nonce := "0x4"; from := "0xf00" |};
     rawTx := Some "0xrawc"; firstRetryBlockNumber := Some "0x10"; retryCount := Some 2%nat;
     warning := None |}.
(** A node that answers every broadcast with "nonce too low", and one that
    refuses it for want of funds. *)
Definition nonceTooLow : Error.t :=
  {| Error.name := "Error"; Error.message := "Nonce too low"; Error.value := None |}.
Definition noFunds : Error.t :=
  {| Error.name := "Error"; Error.message := "Insufficient funds for gas * price + value";
     Error.value := None |}.
Definition t_rejecting (e : Error.t) : PendingTransactionTracker :=
  {| query := q0; nonceTracker := Some {| getGlobalLock := Normal tt |};
     getPendingTransactions := Some [tx_retried];
     getCompletedTransactions := Some (fun _ => []);
     publishTransaction := Some (fun _ => Throw e);
     approveTransaction := Some (fun _ => Normal tt);
     confirmTransaction := None |}.
(** A configuration with a ledger query interface and nothing else, and the
    query library's constructor as it behaves without a provider. *)
Definition cfg_bare : Config.t unit :=
  Config.mk (Some q0) None None None None None None None.
Definition noProvider : Error.t :=
  {| Error.name := "Error";
     Error.message := "the Eth object requires that the first input 'provider' must be an object";
     Error.value := None |}.
Definition newEthQuery0 (provider : option unit) : Completion EthQuery :=
  match provider with
  | Some _ => Normal q0
  | None => Throw noProvider
  end.
Definition t_bare : PendingTransactionTracker :=
  {| query := q0; nonceTracker := None; getPendingTransactions := None;
     getCompletedTransactions := None; publishTransaction := None;
     approveTransaction := None; confirmTransaction := None |}.
(** A submitted item whose broadcast left no hash. *)
Definition tx_unhashed : TxMeta :=
  {| id := 4; status := "submitted"; hash := None;
     txParams := {| nonce := "0x5"; from := "0xf00" |};
     rawTx := Some "0xrawd"; firstRetryBlockNumber := None; retryCount := None;
     warning := None |}.
(** A ledger that has the receipt of [tx0] and no longer its block. *)
Definition q_pruned : EthQuery :=
  {| getTransactionReceipt := fun _ => Normal (Some receipt0);
     getBlockByHash := fun _ _ => Normal None;
     getTransactionCount := fun _ => Normal 5 |}.
(** A ledger on which the nonce of [tx0] is the sender's next one. *)
Definition q_behind : EthQuery :=
  {| getTransactionReceipt := fun _ => Normal None;
     getBlockByHash := fun _ _ => Normal None;
     getTransactionCount := fun _ => Normal 2 |}.
(** An item whose nonce is not a number. *)
Definition tx_odd : TxMeta :=
  {| id := 5; status := "submitted"; hash := Some "0xeee";
     txParams := {| nonce := "pending"; from := "0xf00" |};
     rawTx := Some "0xrawe"; firstRetryBlockNumber := None; retryCount := None;
     warning := None |}.
(** A nonce tracker whose lock cannot be taken, and a tracker with it. *)
Definition lockError : Error.t :=
  {| Error.name := "Error"; Error.message := "mutex unavailable"; Error.value := None |}.
Definition t_locked : PendingTransactionTracker :=
  {| query := q0; nonceTracker := Some {| getGlobalLock := Throw lockError |};
     getPendingTransactions := Some [tx0];
     getCompletedTransactions := Some (fun _ => []);
     publishTransaction := None; approveTransaction := None; confirmTransaction := None |}.
(** A tracker that was given a nonce tracker and no pending-set provider. *)
Definition t_unprovided : PendingTransactionTracker :=
  {| query := q0; nonceTracker := Some {| getGlobalLock := Normal tt |};
     getPendingTransactions := None;
     getCompletedTransactions := None;
     publishTransaction := None; approveTransaction := None; confirmTransaction := None |}.
(** A state whose buffer holds a counter for the hash of [tx_other]. *)
Definition s_leftover : State :=
  {| droppedBlocksBufferByHash := {[ Some "0xdef"%string := 2%nat ]}; trace := [] |}.
End Examples.

(** * Proofs

    ** Evaluation lemmas for [run] *)

Lemma run_bind_step {A B} (p : Step A) (f : A -> Async B) :
  run (bind_step p f) =
  match run p with
  | (s', Normal a) => run (f a s')
  | (s', Throw e) => (s', Throw e)
  end.
Proof.
  induction p as [s [a|e]|s k IH]; simpl; auto.
Qed.

Lemma run_bind {A B} (m : Async A) (f : A -> Async B) (s : State) :
  run (bind m f s) =
  match run (m s) with
  | (s', Normal a) => run (f a s')
  | (s', Throw e) => (s', Throw e)
  end.
Proof. apply run_bind_step. Qed.

Lemma run_catch_step {A} (p : Step A) (h : Error.t -> Async A) :
  run (catch_step p h) =
  match run p with
  | (s', Normal a) => (s', Normal a)
  | (s', Throw e) => run (h e s')
  end.
Proof.
  induction p as [s [a|e]|s k IH]; simpl; auto.
Qed.

Lemma run_try_catch {A} (m : Async A) (h : Error.t -> Async A) (s : State) :
  run (try_catch m h s) =
  match run (m s) with
  | (s', Normal a) => (s', Normal a)
  | (s', Throw e) => run (h e s')
  end.
Proof. apply run_catch_step. Qed.

Lemma run_await {A} (rq : Request) (c : Completion A) (s : State) :
  run (await rq c s) = (log (Call rq) s, c).
Proof. reflexivity. Qed.

Lemma run_act (a : Action) (s : State) : run (act a s) = (log a s, Normal tt).
Proof. reflexivity. Qed.

Lemma run_emit (ev : Event) (s : State) : run (emit ev s) = (log (Emit ev) s, Normal tt).
Proof. reflexivity. Qed.

Lemma run_ret {A} (a : A) (s : State) : run (ret a s) = (s, Normal a).
Proof. reflexivity. Qed.

Lemma run_lift {A} (c : Completion A) (s : State) : run (lift c s) = (s, c).
Proof. reflexivity. Qed.

Lemma run_buffer_has k s :
  run (buffer_has k s) = (s, Normal (bool_decide (is_Some (droppedBlocksBufferByHash s !! k)))).
Proof. reflexivity. Qed.

Lemma run_buffer_get k s : run (buffer_get k s) = (s, Normal (droppedBlocksBufferByHash s !! k)).
Proof. reflexivity. Qed.

Lemma run_buffer_set k v s :
  run (buffer_set k v s) =
  ({| droppedBlocksBufferByHash := <[k := v]> (droppedBlocksBufferByHash s);
      trace := trace s |}, Normal tt).
Proof. reflexivity. Qed.

Lemma run_buffer_delete k s :
  run (buffer_delete k s) =
  ({| droppedBlocksBufferByHash := delete k (droppedBlocksBufferByHash s);
      trace := trace s |}, Normal tt).
Proof. reflexivity. Qed.

Ltac run_simpl :=
  repeat first
    [ rewrite run_bind | rewrite run_try_catch | rewrite run_await
    | rewrite run_emit | rewrite run_act | rewrite run_ret | rewrite run_lift
    | rewrite run_buffer_has | rewrite run_buffer_get
    | rewrite run_buffer_set | rewrite run_buffer_delete
    | progress cbn [fst snd log trace droppedBlocksBufferByHash init app negb] ].

(** ** The nonce-collision test is the document's condition *)

Lemma nonce_taken_iff this txMeta :
  _checkIfNonceIsTaken this txMeta = Normal true <-> nonce_collision this txMeta.
Proof.
  unfold _checkIfNonceIsTaken, nonce_collision. split.
  - destruct (getCompletedTransactions this) as [gc|]; [|discriminate].
    intros H. injection H as H. apply existsb_exists in H as (o & Hin & Ho).
    exists gc, o. repeat split; auto.
    + destruct (Z.eqb_spec (id o) (id txMeta)); [discriminate|assumption].
    + destruct (id o =? id txMeta); [discriminate|]. now apply String.eqb_eq.
  - intros (gc & o & -> & Hin & Hid & Hn). f_equal.
    apply existsb_exists. exists o. split; [assumption|].
    apply Z.eqb_neq in Hid. rewrite Hid. now apply String.eqb_eq.
Qed.

Lemma nonce_free_iff this txMeta :
  _checkIfNonceIsTaken this txMeta = Normal false <-> no_nonce_collision this txMeta.
Proof.
  unfold _checkIfNonceIsTaken, no_nonce_collision. split.
  - destruct (getCompletedTransactions this) as [gc|]; [|discriminate].
    intros H. injection H as H. exists gc. split; [reflexivity|].
    intros o Hin. destruct (Z.eqb_spec (id o) (id txMeta)) as [|Hne]; [now left|right].
    intros Hn. apply not_true_iff_false in H. apply H.
    apply existsb_exists. exists o. split; [assumption|].
    apply Z.eqb_neq in Hne. rewrite Hne. now apply String.eqb_eq.
  - intros (gc & -> & Hall). f_equal. apply not_true_iff_false.
    intros H. apply existsb_exists in H as (o & Hin & Ho).
    destruct (Hall o Hin) as [Hid|Hn].
    + apply Z.eqb_eq in Hid. rewrite Hid in Ho. discriminate.
    + destruct (id o =? id txMeta); [discriminate|]. now apply String.eqb_eq in Ho.
Qed.

(** ** One reconcile check of one item *)

(** The part of [_checkIfTxWasDropped] after the nonce test. *)
Lemma counting_run (txHash : option string) (s : State) :
  run ((present <- buffer_has txHash ;;
        (if negb present then buffer_set txHash 0%nat else ret tt) ;;
        currentBlockBuffer <- buffer_get txHash ;;
        match currentBlockBuffer with
        | Some n =>
            if (n <? DROPPED_BUFFER_COUNT)%nat
            then buffer_set txHash (n + 1)%nat ;; ret false
            else buffer_delete txHash ;; ret true
        | None => buffer_delete txHash ;; ret true
        end)%async s) =
  match bump (droppedBlocksBufferByHash s !! txHash) with
  | Some n => (with_buffer (<[txHash := n]> (droppedBlocksBufferByHash s)) s, Normal false)
  | None => (with_buffer (delete txHash (droppedBlocksBufferByHash s)) s, Normal true)
  end.
Proof.
  destruct s as [b tr]. unfold with_buffer. run_simpl.
  destruct (b !! txHash) as [n|] eqn:Hb; run_simpl.
  - rewrite bool_decide_eq_true_2 by eauto. run_simpl. rewrite Hb. cbn [bump].
    destruct (n <? DROPPED_BUFFER_COUNT)%nat; run_simpl; reflexivity.
  - rewrite bool_decide_eq_false_2 by (intros [? ?]; discriminate). run_simpl.
    rewrite lookup_insert_eq. cbn. run_simpl. now rewrite insert_insert_eq.
Qed.

Lemma run_dropped_counted this txMeta s next :
  getTransactionCount (query this) (from (txParams txMeta)) = Normal next ->
  JS.ge (JS.parseInt16 (nonce (txParams txMeta))) (Some next) = false ->
  run (_checkIfTxWasDropped this txMeta s) =
  let b := droppedBlocksBufferByHash s in
  let tr := trace s ++ [Call (ReqGetTransactionCount (from (txParams txMeta)))] in
  match bump (b !! hash txMeta) with
  | Some n => ({| droppedBlocksBufferByHash := <[hash txMeta := n]> b; trace := tr |}, Normal false)
  | None => ({| droppedBlocksBufferByHash := delete (hash txMeta) b; trace := tr |}, Normal true)
  end.
Proof.
  intros Hcount Hge. unfold _checkIfTxWasDropped.
  rewrite run_bind, run_await, Hcount, Hge, counting_run.
  cbn [log droppedBlocksBufferByHash]. destruct (bump _); reflexivity.
Qed.

Lemma no_collision_free this txMeta :
  no_nonce_collision this txMeta -> _checkIfNonceIsTaken this txMeta = Normal false.
Proof. apply nonce_free_iff. Qed.

(** The part of [_checkPendingTx] before the first query. *)
Ltac check_start Hsub Hobs :=
  unfold check, _checkPendingTx;
  rewrite Hsub; destruct Hobs as [-> ?];
  cbn [String.eqb Ascii.eqb Bool.eqb negb];
  match goal with
  | H : ?h <> "" |- _ => destruct h as [|? ?]; [congruence|]
  end.

(** A check that reaches the ledger and finds no receipt goes on to the
    drop detection. *)
Lemma check_no_receipt this txMeta txHash b r :
  submitted txMeta -> observed txMeta txHash -> no_nonce_collision this txMeta ->
  getTransactionReceipt (query this) txHash = Normal r -> no_receipt r ->
  check this txMeta b =
  match run (_checkIfTxWasDropped this txMeta
               (log (Call (ReqGetTransactionReceipt txHash)) (init b))) with
  | (s, Normal true) => (log (Emit (tx_dropped (id txMeta))) s, Normal tt)
  | (s, Normal false) => (s, Normal tt)
  | (s, Throw e) => (s, Throw e)
  end.
Proof.
  intros Hsub Hobs Hfree Hq Hr. apply no_collision_free in Hfree.
  check_start Hsub Hobs. run_simpl. rewrite Hfree. run_simpl. rewrite Hq.
  assert (Hfall : forall s,
    run (match r with
         | Some receipt =>
             if JS.truthy (blockNumber receipt) then
               (block <- await (ReqGetBlockByHash (blockHash receipt) false)
                               (getBlockByHash (query this) (blockHash receipt) false) ;;
                match block with
                | Some b0 =>
                    emit (tx_confirmed (id txMeta) receipt (baseFeePerGas b0)) ;; ret Return
                | None => throw destructure_null
                end)%async
             else ret Fallthrough
         | None => ret Fallthrough
         end s) = (s, Normal Fallthrough)).
  { intros s. destruct r as [receipt|]; [|reflexivity].
    cbn in Hr. rewrite Hr. reflexivity. }
  rewrite Hfall. run_simpl.
  destruct (run (_checkIfTxWasDropped _ _ _)) as [s [[|]|e]]; run_simpl; reflexivity.
Qed.

Lemma check_superseded this txMeta txHash b :
  submitted txMeta -> observed txMeta txHash -> superseded this txMeta txHash ->
  check this txMeta b =
  let asked := [Call (ReqGetTransactionReceipt txHash);
                Call (ReqGetTransactionCount (from (txParams txMeta)))] in
  match bump (b !! Some txHash) with
  | Some n =>
      ({| droppedBlocksBufferByHash := <[Some txHash := n]> b; trace := asked |}, Normal tt)
  | None =>
      ({| droppedBlocksBufferByHash := delete (Some txHash) b;
          trace := asked ++ [Emit (tx_dropped (id txMeta))] |}, Normal tt)
  end.
Proof.
  intros Hsub Hobs (Hfree & (r & Hq & Hr) & (n & next & Hn & Hcount & Hlt)).
  rewrite (check_no_receipt this txMeta txHash b r) by assumption.
  rewrite (run_dropped_counted this txMeta _ next).
  - destruct Hobs as [Hh _]. rewrite Hh. cbn [init log droppedBlocksBufferByHash trace app].
    destruct (bump (b !! Some txHash)); reflexivity.
  - assumption.
  - rewrite Hn. cbn. apply Z.leb_gt. assumption.
Qed.


Lemma t0_supersedes_tx0 : superseded Examples.t0 Examples.tx0 "0xabc".
Proof.
  split; [|split].
  - exists (fun _ => []). split; [reflexivity|]. intros o [].
  - exists None. split; [reflexivity|exact I].
  - exists 2, 5. repeat split; reflexivity.
Defined.


Lemma events_calls_app (asked : list Request) (l : list Action) :
  events (map Call asked ++ l) = events l.
Proof. induction asked as [|rq asked IH]; [reflexivity|exact IH]. Qed.

Lemma written_calls_app (txId : Z) (asked : list Request) (l : list Action) :
  written txId (map Call asked ++ l) = written txId l.
Proof. induction asked as [|rq asked IH]; [reflexivity|exact IH]. Qed.

(** C6. Nonce collision: for a submitted item with an observed hash, when
    some completed item of the same sender has the same nonce and another
    identity, the check emits dropped for the item, and that is all it
    does: it sends no query to the ledger and leaves the buffer as it is. *)
Theorem collision_drops_without_query (this : PendingTransactionTracker)
    (txMeta : TxMeta) (txHash : string) (b : gmap (option string) nat) :
  submitted txMeta -> observed txMeta txHash -> nonce_collision this txMeta ->
  check this txMeta b =
    ({| droppedBlocksBufferByHash := b; trace := [Emit (tx_dropped (id txMeta))] |},
     Normal tt) /\
  events (trace (checked this txMeta b)) = [tx_dropped (id txMeta)] /\
  calls (trace (checked this txMeta b)) = [].
Proof.
  intros Hsub Hobs Htaken. apply nonce_taken_iff in Htaken.
  assert (Hc : check this txMeta b =
    ({| droppedBlocksBufferByHash := b; trace := [Emit (tx_dropped (id txMeta))] |},
     Normal tt)).
  { check_start Hsub Hobs. run_simpl. rewrite Htaken. reflexivity. }
  unfold checked. rewrite Hc. repeat split.
Qed.

Lemma collision_drops_without_query_witness :
  check (Examples.tracker Examples.q0 [Examples.tx0] [Examples.tx_other]) Examples.tx0 ∅ =
    ({| droppedBlocksBufferByHash := ∅; trace := [Emit (tx_dropped 1)] |}, Normal tt) /\
  events (trace (checked (Examples.tracker Examples.q0 [Examples.tx0] [Examples.tx_other])
                   Examples.tx0 ∅)) = [tx_dropped 1] /\
  calls (trace (checked (Examples.tracker Examples.q0 [Examples.tx0] [Examples.tx_other])
                  Examples.tx0 ∅)) = [].
Proof.
  apply (collision_drops_without_query
           (Examples.tracker Examples.q0 [Examples.tx0] [Examples.tx_other])
           Examples.tx0 "0xabc" ∅).
  - reflexivity.
  - split; [reflexivity|discriminate].
  - exists (fun _ => [Examples.tx_other]), Examples.tx_other.
    repeat split; [now left|discriminate].
Defined.

(** C5. Confirmation: for a submitted item with an observed hash and no
    nonce collision, when the ledger answers the receipt query with a
    receipt that carries a block number and the query for the block of the
    receipt's block hash with a block, the check emits exactly one
    notification, confirmed, with the item's identity, that receipt and the
    base fee of that block. *)
Theorem receipt_confirms (this : PendingTransactionTracker) (txMeta : TxMeta)
    (txHash : string) (b : gmap (option string) nat) (receipt : Receipt) (block : Block) :
  submitted txMeta -> observed txMeta txHash -> no_nonce_collision this txMeta ->
  getTransactionReceipt (query this) txHash = Normal (Some receipt) ->
  JS.truthy (blockNumber receipt) = true ->
  getBlockByHash (query this) (blockHash receipt) false = Normal (Some block) ->
  check this txMeta b =
    ({| droppedBlocksBufferByHash := b;
        trace := [Call (ReqGetTransactionReceipt txHash);
                  Call (ReqGetBlockByHash (blockHash receipt) false);
                  Emit (tx_confirmed (id txMeta) receipt (baseFeePerGas block))] |},
     Normal tt) /\
  events (trace (checked this txMeta b)) =
    [tx_confirmed (id txMeta) receipt (baseFeePerGas block)].
Proof.
  intros Hsub Hobs Hfree Hq Hnum Hblk. apply no_collision_free in Hfree.
  assert (Hc : check this txMeta b =
    ({| droppedBlocksBufferByHash := b;
        trace := [Call (ReqGetTransactionReceipt txHash);
                  Call (ReqGetBlockByHash (blockHash receipt) false);
                  Emit (tx_confirmed (id txMeta) receipt (baseFeePerGas block))] |},
     Normal tt)).
  { check_start Hsub Hobs. run_simpl. rewrite Hfree. run_simpl. rewrite Hq.
    rewrite Hnum. run_simpl. rewrite Hblk. run_simpl. reflexivity. }
  unfold checked. rewrite Hc. split; reflexivity.
Qed.

Lemma receipt_confirms_witness :
  check (Examples.tracker Examples.q_mined [Examples.tx0] []) Examples.tx0 ∅ =
    ({| droppedBlocksBufferByHash := ∅;
        trace := [Call (ReqGetTransactionReceipt "0xabc");
                  Call (ReqGetBlockByHash (Some "0xb10c") false);
                  Emit (tx_confirmed 1 Examples.receipt0 (Some "0x7"))] |},
     Normal tt) /\
  events (trace (checked (Examples.tracker Examples.q_mined [Examples.tx0] [])
                   Examples.tx0 ∅)) =
    [tx_confirmed 1 Examples.receipt0 (Some "0x7")].
Proof.
  apply (receipt_confirms (Examples.tracker Examples.q_mined [Examples.tx0] [])
           Examples.tx0 "0xabc" ∅ Examples.receipt0 Examples.block0).
  - reflexivity.
  - split; [reflexivity|discriminate].
  - exists (fun _ => []). split; [reflexivity|]. intros o [].
  - reflexivity.
  - reflexivity.
  - reflexivity.
Defined.

(** C7. Query failure: for a submitted item with an observed hash and no
    nonce collision, when the receipt query fails with an error (or the
    receipt carries a block number and the query for its block fails with
    an error), the check writes that error's message as the item's warning
    and emits exactly one notification, a warning with the item and the
    error; it emits neither dropped nor failed, and completes normally with
    the buffer as it was. *)
Theorem query_failure_warns (this : PendingTransactionTracker) (txMeta : TxMeta)
    (txHash : string) (b : gmap (option string) nat) (e : Error.t) :
  submitted txMeta -> observed txMeta txHash -> no_nonce_collision this txMeta ->
  getTransactionReceipt (query this) txHash = Throw e \/
  (exists receipt,
      getTransactionReceipt (query this) txHash = Normal (Some receipt) /\
      JS.truthy (blockNumber receipt) = true /\
      getBlockByHash (query this) (blockHash receipt) false = Throw e) ->
  let s := checked this txMeta b in
  snd (check this txMeta b) = Normal tt /\
  events (trace s) = [tx_warning (set_warning txMeta (loading_warning e)) e] /\
  written (id txMeta) (trace s) = [loading_warning e] /\
  after (trace s) txMeta = set_warning txMeta (loading_warning e) /\
  droppedBlocksBufferByHash s = b.
Proof.
  intros Hsub Hobs Hfree Hfail. apply no_collision_free in Hfree.
  assert (Hc : exists asked, check this txMeta b =
    ({| droppedBlocksBufferByHash := b;
        trace := map Call asked ++
                 [SetWarning (id txMeta) (loading_warning e);
                  Emit (tx_warning (set_warning txMeta (loading_warning e)) e)] |},
     Normal tt)).
  { check_start Hsub Hobs. run_simpl. rewrite Hfree. run_simpl.
    destruct Hfail as [Hq|(receipt & Hq & Hnum & Hblk)].
    - rewrite Hq. run_simpl.
      eexists [ReqGetTransactionReceipt _]. reflexivity.
    - rewrite Hq, Hnum. run_simpl. rewrite Hblk. run_simpl.
      eexists [ReqGetTransactionReceipt _; ReqGetBlockByHash _ _]. reflexivity. }
  destruct Hc as [asked Hc]. unfold checked. rewrite Hc. cbn [fst snd trace droppedBlocksBufferByHash].
  unfold after. rewrite events_calls_app, written_calls_app. cbn. rewrite Z.eqb_refl. cbn. repeat split.
Qed.

Lemma query_failure_warns_witness :
  let s := checked (Examples.tracker Examples.q_down [Examples.tx0] []) Examples.tx0 ∅ in
  snd (check (Examples.tracker Examples.q_down [Examples.tx0] []) Examples.tx0 ∅) = Normal tt /\
  events (trace s) =
    [tx_warning (set_warning Examples.tx0 (loading_warning Examples.networkError))
       Examples.networkError] /\
  written 1 (trace s) = [loading_warning Examples.networkError] /\
  after (trace s) Examples.tx0 =
    set_warning Examples.tx0 (loading_warning Examples.networkError) /\
  droppedBlocksBufferByHash s = ∅.
Proof.
  apply (query_failure_warns (Examples.tracker Examples.q_down [Examples.tx0] [])
           Examples.tx0 "0xabc" ∅ Examples.networkError).
  - reflexivity.
  - split; [reflexivity|discriminate].
  - exists (fun _ => []). split; [reflexivity|]. intros o [].
  - left. reflexivity.
Defined.

(** A failure of the next-nonce query is not caught by the check: the check
    itself fails, with nothing emitted. *)
Lemma count_failure_rejects this txMeta txHash b r e :
  submitted txMeta -> observed txMeta txHash -> no_nonce_collision this txMeta ->
  getTransactionReceipt (query this) txHash = Normal r -> no_receipt r ->
  getTransactionCount (query this) (from (txParams txMeta)) = Throw e ->
  check this txMeta b =
    ({| droppedBlocksBufferByHash := b;
        trace := [Call (ReqGetTransactionReceipt txHash);
                  Call (ReqGetTransactionCount (from (txParams txMeta)))] |},
     Throw e).
Proof.
  intros Hsub Hobs Hfree Hq Hr Hcount.
  rewrite (check_no_receipt this txMeta txHash b r) by assumption.
  unfold _checkIfTxWasDropped. rewrite run_bind, run_await, Hcount. reflexivity.
Qed.

(** ** Facts about the string primitives *)

Lemma prefix_iff_append (s1 s2 : string) :
  String.prefix s1 s2 = true <-> exists post, s2 = (s1 ++ post)%string.
Proof.
  revert s2. induction s1 as [|a s1 IH]; intros s2.
  - split; [intros _; exists s2; reflexivity|].
    intros _. destruct s2; reflexivity.
  - destruct s2 as [|b s2]; cbn [String.prefix].
    + split; [discriminate|]. intros [post H]. discriminate.
    + destruct (ascii_dec a b) as [->|Hne].
      * rewrite IH. split; intros [post H]; exists post.
        -- cbn. now rewrite H.
        -- cbn in H. now injection H.
      * split; [discriminate|]. intros [post H]. cbn in H. injection H as H _.
        congruence.
Qed.

(** [includes] decides "is a substring of". *)
Lemma includes_spec (s sub : string) :
  JS.includes s sub = true <-> exists pre post, s = (pre ++ sub ++ post)%string.
Proof.
  induction s as [|c s IH]; cbn [JS.includes]; rewrite orb_true_iff, prefix_iff_append.
  - split.
    + intros [[post H]|H]; [|discriminate]. exists ""%string, post. exact H.
    + intros (pre & post & H). left. destruct pre; [|discriminate].
      exists post. exact H.
  - rewrite IH. split.
    + intros [[post H]|(pre & post & H)].
      * exists ""%string, post. exact H.
      * exists (String c pre), post. cbn. now rewrite H.
    + intros (pre & post & H). destruct pre as [|c' pre].
      * left. exists post. exact H.
      * right. cbn in H. injection H as _ H. exists pre, post. exact H.
Qed.

Lemma pow2_pos (r : nat) : 0 <= 2 ^ Z.of_nat r - 1.
Proof.
  assert (0 < 2 ^ Z.of_nat r) by (apply Z.pow_pos_nonneg; lia). lia.
Qed.

(** [parseInt] on the forms the tracker meets. *)
Example parseInt16_prefixed : JS.parseInt16 "0x1F" = Some 31.
Proof. reflexivity. Qed.

Example parseInt16_signed_spaced : JS.parseInt16 "  -ff" = Some (-255).
Proof. reflexivity. Qed.

Example parseInt16_stops_at_non_digit : JS.parseInt16 "12zz" = Some 18.
Proof. reflexivity. Qed.

Example parseInt16_no_digit : JS.parseInt16 "0x" = None /\ JS.parseInt16 "undefined" = None.
Proof. split; reflexivity. Qed.

Example includes_up_to_case :
  JS.includes (JS.toLowerCase "Error: Nonce TOO low") "nonce too low" = true.
Proof. reflexivity. Qed.

(** ** One resubmission of one item *)

Lemma resubmit_eval this txMeta latestBlockNumber b :
  resubmit this txMeta latestBlockNumber b =
  let tr0 := announced txMeta latestBlockNumber in
  let st tr := {| droppedBlocksBufferByHash := b; trace := tr |} in
  if JS.le (txBlockDistance txMeta latestBlockNumber) (Some (2 ^ retries txMeta - 1))
  then (st tr0, Normal None)
  else
    match rawTx txMeta with
    | None =>
        match approveTransaction this with
        | None =>
            (st tr0, Throw (Error.TypeError "this.approveTransaction is not a function"))
        | Some approve =>
            (st (tr0 ++ [Call (ReqApproveTransaction (id txMeta))]),
             match approve (id txMeta) with
             | Normal _ => Normal None
             | Throw e => Throw e
             end)
        end
    | Some raw =>
        match publishTransaction this with
        | None =>
            (st tr0, Throw (Error.TypeError "this.publishTransaction is not a function"))
        | Some publish =>
            match publish raw with
            | Normal txHash =>
                (st (tr0 ++ [Call (ReqPublishTransaction raw); Emit (tx_retry txMeta)]),
                 Normal (Some txHash))
            | Throw e => (st (tr0 ++ [Call (ReqPublishTransaction raw)]), Throw e)
            end
        end
    end.
Proof.
  unfold resubmit, _resubmitTx, txBlockDistance, retries, announced.
  rewrite run_bind.
  destruct (JS.truthy (firstRetryBlockNumber txMeta)); run_simpl;
    (destruct (JS.le _ _); [reflexivity|]);
    (destruct (rawTx txMeta) as [raw|];
     [destruct (publishTransaction this) as [publish|]; [|reflexivity];
      run_simpl; destruct (publish raw); run_simpl; reflexivity
     |destruct (approveTransaction this) as [approve|]; [|reflexivity];
      run_simpl; destruct (approve (id txMeta)); run_simpl; reflexivity]).
Qed.

Lemma calls_app (l1 l2 : list Action) : calls (l1 ++ l2) = calls l1 ++ calls l2.
Proof. unfold calls. apply omap_app. Qed.

Lemma events_app (l1 l2 : list Action) : events (l1 ++ l2) = events l1 ++ events l2.
Proof. unfold events. apply omap_app. Qed.

Lemma written_app (txId : Z) (l1 l2 : list Action) :
  written txId (l1 ++ l2) = written txId l1 ++ written txId l2.
Proof. unfold written. apply omap_app. Qed.

Lemma calls_announced txMeta latestBlockNumber : calls (announced txMeta latestBlockNumber) = [].
Proof. unfold announced. destruct (JS.truthy _); reflexivity. Qed.

(** C2. Backoff: for a tracker with its approve and broadcast functions,
    and an item with retry count [r] (0 when it has none) whose block
    distance from its first retry block is [d], one resubmission calls
    neither of them exactly when [d <= 2^r - 1]; when [d > 2^r - 1] it makes
    exactly one call: it broadcasts the signed payload of the item, or, for
    an item without one, approves the item. *)
Theorem backoff (this : PendingTransactionTracker) (txMeta : TxMeta)
    (latestBlockNumber : string) (b : gmap (option string) nat) (d : Z)
    (approve : Z -> Completion unit) (publish : string -> Completion string) :
  approveTransaction this = Some approve ->
  publishTransaction this = Some publish ->
  txBlockDistance txMeta latestBlockNumber = Some d ->
  let s := fst (resubmit this txMeta latestBlockNumber b) in
  (calls (trace s) = [] <-> d <= 2 ^ retries txMeta - 1) /\
  (d > 2 ^ retries txMeta - 1 -> calls (trace s) = [resubmission txMeta]).
Proof.
  intros Ha Hp Hd. rewrite resubmit_eval, Hd, Ha, Hp. cbn [JS.le].
  unfold resubmission.
  destruct (Z.leb_spec d (2 ^ retries txMeta - 1)) as [Hle|Hgt].
  - cbn [fst trace]. rewrite calls_announced. split; [tauto|lia].
  - destruct (rawTx txMeta) as [raw|]; [destruct (publish raw)|];
      cbn [fst trace]; rewrite calls_app, calls_announced;
      (split; [split; [discriminate|lia]|reflexivity]).
Qed.

Lemma backoff_witness :
  let s := fst (resubmit Examples.t0 Examples.tx_retried "0x14" ∅) in
  (calls (trace s) = [] <-> 4 <= 2 ^ retries Examples.tx_retried - 1) /\
  (4 > 2 ^ retries Examples.tx_retried - 1 ->
   calls (trace s) = [resubmission Examples.tx_retried]).
Proof.
  apply (backoff Examples.t0 Examples.tx_retried "0x14" ∅ 4
           (fun _ => Normal tt) (fun _ => Normal "0xabc")).
  - reflexivity.
  - reflexivity.
  - reflexivity.
Defined.

(** When the block distance is [NaN] (a block number does not parse) the
    comparison is false and the resubmission is attempted. *)
Lemma unparsable_distance_attempts this txMeta latestBlockNumber b approve publish :
  approveTransaction this = Some approve ->
  publishTransaction this = Some publish ->
  txBlockDistance txMeta latestBlockNumber = None ->
  calls (trace (fst (resubmit this txMeta latestBlockNumber b))) = [resubmission txMeta].
Proof.
  intros Ha Hp Hd. rewrite resubmit_eval, Hd, Ha, Hp. cbn [JS.le]. unfold resubmission.
  destruct (rawTx txMeta) as [raw|]; [destruct (publish raw)|];
    cbn [fst trace]; rewrite calls_app, calls_announced; reflexivity.
Qed.

(** The examples of the document: with two retries behind it an item is
    skipped at distance 3 and resubmitted at distance 4. *)
Example backoff_r2 :
  calls (trace (fst (resubmit Examples.t0 Examples.tx_retried "0x13" ∅))) = [] /\
  calls (trace (fst (resubmit Examples.t0 Examples.tx_retried "0x14" ∅))) =
    [ReqPublishTransaction "0xrawc"].
Proof. split; reflexivity. Qed.

Lemma events_announced txMeta latestBlockNumber :
  events (announced txMeta latestBlockNumber) =
  if JS.truthy (firstRetryBlockNumber txMeta) then []
  else [tx_block_update txMeta latestBlockNumber].
Proof. unfold announced. destruct (JS.truthy _); reflexivity. Qed.

Lemma written_announced txId txMeta latestBlockNumber :
  written txId (announced txMeta latestBlockNumber) = [].
Proof. unfold announced. destruct (JS.truthy _); reflexivity. Qed.

(** A resubmission leaves the announcement followed by at most a call and
    a retry notification. *)
Lemma resubmit_trace this txMeta latestBlockNumber b :
  exists rest,
    trace (fst (resubmit this txMeta latestBlockNumber b)) =
      announced txMeta latestBlockNumber ++ rest /\
    (rest = [] \/ rest = [Call (resubmission txMeta)] \/
     rest = [Call (resubmission txMeta); Emit (tx_retry txMeta)]) /\
    droppedBlocksBufferByHash (fst (resubmit this txMeta latestBlockNumber b)) = b.
Proof.
  rewrite resubmit_eval. unfold resubmission. cbv zeta.
  destruct (JS.le _ _).
  { exists []. rewrite app_nil_r. auto. }
  destruct (rawTx txMeta) as [raw|].
  - destruct (publishTransaction this) as [publish|].
    + destruct (publish raw); eexists; cbn [fst trace droppedBlocksBufferByHash]; eauto.
    + exists []. rewrite app_nil_r. auto.
  - destruct (approveTransaction this) as [approve|].
    + eexists; cbn [fst trace droppedBlocksBufferByHash]; eauto.
    + exists []. rewrite app_nil_r. auto.
Qed.

(** For an item without a first retry block the current block stands for
    it, and the distance is zero when the block number parses. *)
Lemma unrecorded_distance txMeta latestBlockNumber :
  JS.truthy (firstRetryBlockNumber txMeta) = false ->
  JS.parseInt16 latestBlockNumber <> None ->
  txBlockDistance txMeta latestBlockNumber = Some 0.
Proof.
  intros Hfirst Hparse. unfold txBlockDistance.
  assert (Hor : JS.or_else (firstRetryBlockNumber txMeta) latestBlockNumber
                = latestBlockNumber).
  { destruct (firstRetryBlockNumber txMeta) as [[|c f]|];
      [reflexivity|discriminate|reflexivity]. }
  rewrite Hor. destruct (JS.parseInt16 latestBlockNumber) as [n|]; [|congruence].
  cbn. f_equal. lia.
Qed.

(** C4 (as the code has it). A resubmission emits block-update, with the
    item and the current block number, exactly when the item has no first
    retry block, and then once; for an item that has one it emits none.  The
    tracker writes nothing into the item, so it does not record the block
    itself; and for an item that has no first retry block the current block
    stands for it: when the block number parses the distance is zero and the
    resubmission is skipped. *)
Theorem block_update_when_unrecorded (this : PendingTransactionTracker) (txMeta : TxMeta)
    (latestBlockNumber : string) (b : gmap (option string) nat) :
  let s := fst (resubmit this txMeta latestBlockNumber b) in
  filter (fun ev => is_block_update ev = true) (events (trace s)) =
    (if JS.truthy (firstRetryBlockNumber txMeta) then []
     else [tx_block_update txMeta latestBlockNumber]) /\
  written (id txMeta) (trace s) = [] /\
  after (trace s) txMeta = txMeta /\
  (JS.truthy (firstRetryBlockNumber txMeta) = false ->
   JS.parseInt16 latestBlockNumber <> None ->
   txBlockDistance txMeta latestBlockNumber = Some 0 /\ calls (trace s) = []).
Proof.
  cbv zeta.
  destruct (resubmit_trace this txMeta latestBlockNumber b) as (rest & Htr & Hrest & _).
  assert (Hw : written (id txMeta) (trace (fst (resubmit this txMeta latestBlockNumber b))) = []).
  { rewrite Htr, written_app, written_announced.
    destruct Hrest as [->|[->| ->]]; reflexivity. }
  split; [|split; [exact Hw|split]].
  - rewrite Htr, events_app, events_announced, filter_app.
    assert (Hnone : filter (fun ev => is_block_update ev = true) (events rest) = []).
    { destruct Hrest as [->|[->| ->]]; reflexivity. }
    rewrite Hnone, app_nil_r. destruct (JS.truthy _); reflexivity.
  - unfold after. rewrite Hw. reflexivity.
  - intros Hfirst Hparse.
    pose proof (unrecorded_distance txMeta latestBlockNumber Hfirst Hparse) as Hd.
    split; [exact Hd|].
    rewrite resubmit_eval, Hd. cbn [JS.le].
    pose proof (pow2_pos (default 0%nat (retryCount txMeta))) as Hpos.
    unfold retries. destruct (Z.leb_spec 0 (2 ^ Z.of_nat (default 0%nat (retryCount txMeta)) - 1)); [|lia].
    cbn [fst trace]. apply calls_announced.
Qed.

Lemma block_update_when_unrecorded_witness :
  let s := fst (resubmit Examples.t0 Examples.tx0 "0x10" ∅) in
  filter (fun ev => is_block_update ev = true) (events (trace s)) =
    [tx_block_update Examples.tx0 "0x10"] /\
  written 1 (trace s) = [] /\
  after (trace s) Examples.tx0 = Examples.tx0 /\
  txBlockDistance Examples.tx0 "0x10" = Some 0 /\ calls (trace s) = [].
Proof.
  destruct (block_update_when_unrecorded Examples.t0 Examples.tx0 "0x10" ∅)
    as (H1 & H2 & H3 & H4).
  split; [exact H1|split; [exact H2|split; [exact H3|]]].
  apply H4; [reflexivity|discriminate].
Defined.

(** C4 as the document states it fails: the first resubmission of [tx0]
    leaves the item without a first retry block, and the next one emits
    block-update again. *)
Lemma block_update_repeats :
  let s1 := fst (resubmit Examples.t0 Examples.tx0 "0x10" ∅) in
  let tx1 := after (trace s1) Examples.tx0 in
  let s2 := fst (resubmit Examples.t0 tx1 "0x11" (droppedBlocksBufferByHash s1)) in
  events (trace s1) = [tx_block_update Examples.tx0 "0x10"] /\
  firstRetryBlockNumber tx1 = None /\
  events (trace s2) = [tx_block_update Examples.tx0 "0x11"].
Proof. repeat split. Qed.

(** ** Classification of resubmission failures *)

Lemma errorMessage_reported (e : Error.t) :
  errorMessage e = JS.toLowerCase (reported_message e).
Proof.
  unfold errorMessage, reported_message.
  destruct (Error.value e) as [[[|c m]|]|]; reflexivity.
Qed.

Lemma isKnownTx_iff (m : string) :
  isKnownTx m = true <-> exists k, In k known_messages /\ JS.includes m k = true.
Proof.
  unfold isKnownTx, known_messages. rewrite !orb_true_iff. split.
  - intros [[[[[H|H]|H]|H]|H]|H]; eexists; (split; [|exact H]); cbn; tauto.
  - intros (k & Hin & H). cbn in Hin.
    destruct Hin as [<-|[<-|[<-|[<-|[<-|[<-|[]]]]]]]; tauto.
Qed.

(** The test of the handler is the document's: the reported message
    contains, up to case, one of the six benign texts. *)
Lemma isKnownTx_spec (e : Error.t) :
  isKnownTx (errorMessage e) = true <-> known_benign e.
Proof.
  rewrite isKnownTx_iff, errorMessage_reported. unfold known_benign. split.
  - intros (k & Hin & H). apply includes_spec in H as (pre & post & H). eauto.
  - intros (k & pre & post & Hin & H). exists k. split; [exact Hin|].
    apply includes_spec. eauto.
Qed.

Lemma resubmit_caught_eval this txMeta latestBlockNumber b :
  resubmit_caught this txMeta latestBlockNumber b =
  match resubmit this txMeta latestBlockNumber b with
  | (s, Normal _) => (s, Normal tt)
  | (s, Throw e) =>
      if isKnownTx (errorMessage e) then (s, Normal tt)
      else
        (log (Emit (tx_warning (set_warning txMeta (resubmit_warning e)) e))
           (log (SetWarning (id txMeta) (resubmit_warning e)) s), Normal tt)
  end.
Proof.
  unfold resubmit_caught, resubmit_one, resubmit.
  rewrite run_try_catch, run_bind.
  destruct (run (_resubmitTx this txMeta latestBlockNumber (init b))) as [s [a|e]].
  - reflexivity.
  - unfold resubmit_catch. destruct (isKnownTx (errorMessage e)); run_simpl; reflexivity.
Qed.

(** A resubmission that fails has emitted nothing, unless the item has no
    first retry block and the block number does not parse. *)
Lemma failed_resubmit_silent this txMeta latestBlockNumber b s e :
  resubmit this txMeta latestBlockNumber b = (s, Throw e) ->
  events (trace s) = events (announced txMeta latestBlockNumber) /\
  written (id txMeta) (trace s) = [] /\
  droppedBlocksBufferByHash s = b /\
  (JS.parseInt16 latestBlockNumber <> None -> events (trace s) = []).
Proof.
  intros Hrun.
  assert (Hev : events (trace s) = events (announced txMeta latestBlockNumber) /\
                written (id txMeta) (trace s) = [] /\
                droppedBlocksBufferByHash s = b /\
                JS.le (txBlockDistance txMeta latestBlockNumber)
                      (Some (2 ^ retries txMeta - 1)) = false).
  { rewrite resubmit_eval in Hrun. cbv zeta in Hrun.
    destruct (JS.le _ _); [discriminate|].
    destruct (rawTx txMeta) as [raw|].
    - destruct (publishTransaction this) as [publish|].
      + destruct (publish raw); [discriminate|]. injection Hrun as <- _.
        cbn [trace droppedBlocksBufferByHash].
        rewrite events_app, written_app, written_announced, app_nil_r. auto.
      + injection Hrun as <- _. cbn [trace droppedBlocksBufferByHash].
        rewrite written_announced. auto.
    - destruct (approveTransaction this) as [approve|].
      + injection Hrun as <- _. cbn [trace droppedBlocksBufferByHash].
        rewrite events_app, written_app, written_announced, app_nil_r. auto.
      + injection Hrun as <- _. cbn [trace droppedBlocksBufferByHash].
        rewrite written_announced. auto. }
  destruct Hev as (Hev & Hw & Hb & Hle). repeat split; try assumption.
  intros Hparse. rewrite Hev, events_announced.
  destruct (JS.truthy (firstRetryBlockNumber txMeta)) eqn:Hfirst; [reflexivity|].
  exfalso.
  rewrite (unrecorded_distance txMeta latestBlockNumber Hfirst Hparse) in Hle. cbn in Hle. apply Z.leb_gt in Hle.
  pose proof (pow2_pos (default 0%nat (retryCount txMeta))). unfold retries in Hle. lia.
Qed.

Lemma announced_not_terminal txMeta latestBlockNumber :
  Forall (fun ev => is_terminal ev = false) (events (announced txMeta latestBlockNumber)).
Proof.
  rewrite events_announced. destruct (JS.truthy _); repeat constructor.
Qed.


Lemma nonceTooLow_benign : known_benign Examples.nonceTooLow.
Proof.
  exists "nonce too low"%string, ""%string, ""%string.
  split; [cbn; tauto|reflexivity].
Defined.


(** An error that is not benign is surfaced as a warning. *)
Example resubmit_no_funds :
  events (trace (fst (resubmit_caught (Examples.t_rejecting Examples.noFunds)
                        Examples.tx_retried "0x14" ∅))) =
  [tx_warning (set_warning Examples.tx_retried (resubmit_warning Examples.noFunds))
     Examples.noFunds].
Proof. reflexivity. Qed.

(** ** Construction *)

Lemma updatePendingTxs_result_stable schedule (t : Tick) c :
  tick_result t = Some c ->
  tick_result (foldl tick_deliver t schedule) = Some c.
Proof.
  revert t. induction schedule as [|i schedule IH]; intros t Ht; [exact Ht|].
  cbn [foldl]. apply IH. unfold tick_deliver.
  destruct (deliver i (tick_state t, tick_promises t)) as [s ts]. rewrite Ht. reflexivity.
Qed.

(** C9 (as the code has it). The constructor checks none of the
    collaborators.  With a ledger query interface in the configuration it
    succeeds and stores the others as they are given, absent ones as
    absent; it fails only when there is no ledger query interface and the
    query library's own constructor fails on the provider.  A missing
    collaborator shows when an operation uses it: without a nonce arbiter
    reconcile-pending fails with a TypeError, and without a pending-set
    provider resubmit-pending throws one. *)
Theorem construction_checks_nothing (Provider : Type)
    (newEthQuery : option Provider -> Completion EthQuery) (config : Config.t Provider) :
  (forall q, Config.query config = Some q ->
     constructor Provider newEthQuery config =
     Normal {| query := q;
               nonceTracker := Config.nonceTracker config;
               getPendingTransactions := Config.getPendingTransactions config;
               getCompletedTransactions := Config.getCompletedTransactions config;
               publishTransaction := Config.publishTransaction config;
               approveTransaction := Config.approveTransaction config;
               confirmTransaction := Config.confirmTransaction config |}) /\
  (forall e, constructor Provider newEthQuery config = Throw e <->
     Config.query config = None /\ newEthQuery (Config.provider config) = Throw e) /\
  (forall this schedule s,
     constructor Provider newEthQuery config = Normal this ->
     Config.nonceTracker config = None ->
     tick_result (updatePendingTxs this schedule s) =
     Some (Throw (Error.TypeError
                    "Cannot read properties of undefined (reading 'getGlobalLock')"))) /\
  (forall this blockNumber s,
     constructor Provider newEthQuery config = Normal this ->
     Config.getPendingTransactions config = None ->
     fst (resubmitPendingTxs this blockNumber s) =
     Throw (Error.TypeError "this.getPendingTransactions is not a function")).
Proof.
  unfold constructor. split; [|split; [|split]].
  - intros q ->. reflexivity.
  - intros e. destruct (Config.query config) as [q|].
    + split; [discriminate|]. intros [H _]. discriminate.
    + destruct (newEthQuery (Config.provider config)) as [q|e'].
      * split; [discriminate|]. intros [_ H]. discriminate.
      * split; [intros H; injection H as ->; auto|].
        intros [_ H]. injection H as ->. reflexivity.
  - intros this schedule s Hc Hn.
    assert (Hnone : nonceTracker this = None).
    { destruct (Config.query config);
        [|destruct (newEthQuery (Config.provider config)); [|discriminate]];
        injection Hc as <-; exact Hn. }
    unfold updatePendingTxs. apply updatePendingTxs_result_stable.
    unfold updatePendingTxs_start. rewrite Hnone. reflexivity.
  - intros this blockNumber s Hc Hn.
    assert (Hnone : getPendingTransactions this = None).
    { destruct (Config.query config);
        [|destruct (newEthQuery (Config.provider config)); [|discriminate]];
        injection Hc as <-; exact Hn. }
    unfold resubmitPendingTxs. rewrite Hnone. reflexivity.
Qed.

Lemma construction_checks_nothing_witness :
  constructor unit Examples.newEthQuery0 Examples.cfg_bare = Normal Examples.t_bare /\
  tick_result (updatePendingTxs Examples.t_bare [] new_state) =
    Some (Throw (Error.TypeError
                   "Cannot read properties of undefined (reading 'getGlobalLock')")) /\
  fst (resubmitPendingTxs Examples.t_bare "0x10" new_state) =
    Throw (Error.TypeError "this.getPendingTransactions is not a function").
Proof.
  destruct (construction_checks_nothing unit Examples.newEthQuery0 Examples.cfg_bare)
    as (Hok & _ & Hlock & Hpending).
  split; [exact (Hok Examples.q0 eq_refl)|]. split.
  - exact (Hlock Examples.t_bare [] new_state eq_refl eq_refl).
  - exact (Hpending Examples.t_bare "0x10" new_state eq_refl eq_refl).
Defined.

(** C9 as the document states it fails: a configuration that lacks the
    nonce arbiter, both item providers and the approve and broadcast
    functions is accepted. *)
Lemma construction_without_collaborators :
  Config.nonceTracker Examples.cfg_bare = None /\
  Config.getPendingTransactions Examples.cfg_bare = None /\
  Config.getCompletedTransactions Examples.cfg_bare = None /\
  Config.approveTransaction Examples.cfg_bare = None /\
  Config.publishTransaction Examples.cfg_bare = None /\
  constructor unit Examples.newEthQuery0 Examples.cfg_bare = Normal Examples.t_bare.
Proof. repeat split. Qed.

(** ** Rules for [follows] and [awaits_le] *)

Section Follows.

Variable R : State -> State -> Prop.
Hypothesis R_refl : forall s, R s s.
Hypothesis R_trans : forall s1 s2 s3, R s1 s2 -> R s2 s3 -> R s1 s3.

Lemma follows_weaken {A} (s0 s1 : State) (p : Step A) :
  R s0 s1 -> follows R s1 p -> follows R s0 p.
Proof.
  intros H01. destruct p as [s c|s k]; cbn.
  - apply R_trans, H01.
  - intros [Hs Hk]. split; [eapply R_trans; eauto|exact Hk].
Qed.

Lemma follows_bind {A B} (m : Async A) (f : A -> Async B) (s : State) :
  follows R s (m s) ->
  (forall a s', follows R s' (f a s')) ->
  follows R s (bind m f s).
Proof.
  unfold bind. intros Hm Hf. revert Hm. generalize s at 1 3 as s0.
  induction (m s) as [s1 [a|e]|s1 k IH]; intros s0 Hm; cbn in *.
  - eapply follows_weaken; [exact Hm|apply Hf].
  - exact Hm.
  - destruct Hm as [Hs Hk]. split; [exact Hs|]. intros s'. apply IH, Hk.
Qed.

Lemma follows_try_catch {A} (m : Async A) (h : Error.t -> Async A) (s : State) :
  follows R s (m s) ->
  (forall e s', follows R s' (h e s')) ->
  follows R s (try_catch m h s).
Proof.
  unfold try_catch. intros Hm Hh. revert Hm. generalize s at 1 3 as s0.
  induction (m s) as [s1 [a|e]|s1 k IH]; intros s0 Hm; cbn in *.
  - exact Hm.
  - eapply follows_weaken; [exact Hm|apply Hh].
  - destruct Hm as [Hs Hk]. split; [exact Hs|]. intros s'. apply IH, Hk.
Qed.

Hypothesis R_log : forall a s, R s (log a s).

Lemma follows_act a s : follows R s (act a s).
Proof. apply R_log. Qed.

Lemma follows_emit ev s : follows R s (emit ev s).
Proof. apply R_log. Qed.

Lemma follows_await {A} rq (c : Completion A) s : follows R s (await rq c s).
Proof. cbn. split; [apply R_log|]. intros s'. apply R_refl. Qed.

(** The relation passes from a method to the promise it returns, and from the
    promises of an operation to the operation. *)
Lemma to_promise_follows (s0 : State) (p : Step unit) :
  follows R s0 p -> R s0 (fst (to_promise p)) /\ promise_follows R (snd (to_promise p)).
Proof.
  destruct p as [s c|s k]; cbn.
  - auto.
  - intros [Hs Hk]. auto.
Qed.

Lemma start_all_follows (ms : list (Async unit)) (s : State) :
  Forall (fun m => forall s', follows R s' (m s')) ms ->
  R s (fst (start_all ms s)) /\ Forall (promise_follows R) (snd (start_all ms s)).
Proof.
  intros Hms. revert s. induction Hms as [|m ms Hm _ IH]; intros s; cbn.
  - auto.
  - destruct (to_promise_follows s (m s) (Hm s)) as [H1 Ht].
    destruct (to_promise (m s)) as [s1 t]. cbn in H1, Ht.
    destruct (IH s1) as [H2 Hts].
    destruct (start_all ms s1) as [s2 ts]. cbn in *. eauto.
Qed.

Lemma deliver_follows (i : nat) (s : State) (ts : list Promise) :
  Forall (promise_follows R) ts ->
  R s (fst (deliver i (s, ts))) /\ Forall (promise_follows R) (snd (deliver i (s, ts))).
Proof.
  intros Hts. cbn. destruct (ts !! i) as [t|] eqn:Hi; [|auto].
  assert (Ht : promise_follows R t).
  { rewrite Forall_forall in Hts. apply Hts. eapply list_elem_of_lookup_2, Hi. }
  destruct t as [k|c]; cbn.
  - destruct (to_promise_follows s (k s) (Ht s)) as [H1 H2].
    destruct (to_promise (k s)) as [s' t']. cbn in *. split; [exact H1|].
    apply Forall_insert; assumption.
  - split; [apply R_refl|]. apply Forall_insert; [assumption|exact Ht].
Qed.

Lemma schedule_follows (schedule : list nat) (s : State) (ts : list Promise) :
  Forall (promise_follows R) ts ->
  R s (fst (foldl (fun st i => deliver i st) (s, ts) schedule)) /\
  Forall (promise_follows R) (snd (foldl (fun st i => deliver i st) (s, ts) schedule)).
Proof.
  revert s ts. induction schedule as [|i schedule IH]; intros s ts Hts; cbn [foldl].
  - auto.
  - destruct (deliver_follows i s ts Hts) as [H1 H2].
    destruct (deliver i (s, ts)) as [s' ts']. cbn [fst snd] in *.
    destruct (IH s' ts' H2) as [H3 H4]. eauto.
Qed.

End Follows.

Lemma awaits_le_mono {A} (n m : nat) (p : Step A) :
  (n <= m)%nat -> awaits_le n p -> awaits_le m p.
Proof.
  revert n m. induction p as [s c|s k IH]; intros n m Hnm; cbn; [auto|].
  destruct n as [|n]; [intros []|]. destruct m as [|m]; [intros; lia|].
  intros H s'. apply (IH s' n m); [lia|apply H].
Qed.

Lemma awaits_le_bind {A B} (n k : nat) (m : Async A) (f : A -> Async B) (s : State) :
  awaits_le n (m s) ->
  (forall a s', awaits_le k (f a s')) ->
  awaits_le (n + k) (bind m f s).
Proof.
  unfold bind. intros Hm Hf. revert n Hm.
  induction (m s) as [s0 [a|e]|s0 k0 IH]; intros n Hm; cbn in *.
  - apply (awaits_le_mono k); [lia|apply Hf].
  - exact Logic.I.
  - destruct n as [|n]; [contradiction|]. cbn. intros s'. apply IH, Hm.
Qed.

Lemma awaits_le_await {A} rq (c : Completion A) s : awaits_le 1 (await rq c s).
Proof. cbn. auto. Qed.

(** A method that does not suspend is its run. *)
Lemma sync_is_run {A} (p : Step A) :
  awaits_le 0 p -> p = Done (fst (run p)) (snd (run p)).
Proof. destruct p; cbn; [reflexivity|contradiction]. Qed.

Lemma follows_sync {A} (R : State -> State -> Prop) (s0 : State) (p : Step A) :
  awaits_le 0 p -> R s0 (fst (run p)) -> follows R s0 p.
Proof. intros H0 H. rewrite (sync_is_run p H0). exact H. Qed.

(** ** The checks suspend at most three times, and keep the buffer well
    formed *)

Lemma counting_sync (txHash : option string) (s : State) :
  awaits_le 0
    ((present <- buffer_has txHash ;;
      (if negb present then buffer_set txHash 0%nat else ret tt) ;;
      currentBlockBuffer <- buffer_get txHash ;;
      match currentBlockBuffer with
      | Some n =>
          if (n <? DROPPED_BUFFER_COUNT)%nat
          then buffer_set txHash (n + 1)%nat ;; ret false
          else buffer_delete txHash ;; ret true
      | None => buffer_delete txHash ;; ret true
      end)%async s).
Proof.
  apply (awaits_le_bind 0 0); [exact Logic.I|]. intros present s1.
  apply (awaits_le_bind 0 0); [destruct (negb present); exact Logic.I|]. intros _ s2.
  apply (awaits_le_bind 0 0); [exact Logic.I|]. intros [n|] s3.
  - destruct (n <? DROPPED_BUFFER_COUNT)%nat;
      (apply (awaits_le_bind 0 0); [exact Logic.I|intros; exact Logic.I]).
  - apply (awaits_le_bind 0 0); [exact Logic.I|intros; exact Logic.I].
Qed.

Lemma bump_range (c : option nat) (m : nat) :
  bump c = Some m -> (1 <= m <= DROPPED_BUFFER_COUNT)%nat.
Proof.
  unfold bump, DROPPED_BUFFER_COUNT. destruct c as [k|].
  - destruct (Nat.ltb_spec k 3) as [Hk|Hk]; [|discriminate].
    intros Hm. injection Hm as <-. lia.
  - intros Hm. injection Hm as <-. lia.
Qed.

Lemma dropped_awaits this txMeta s : awaits_le 1 (_checkIfTxWasDropped this txMeta s).
Proof.
  unfold _checkIfTxWasDropped.
  apply (awaits_le_bind 1 0); [apply awaits_le_await|]. intros next s'.
  destruct (JS.ge _ _); [exact Logic.I|apply counting_sync].
Qed.

Lemma within_mono {A} (n m : nat) (rest : Completion A -> nat) (p : Step A) :
  (n <= m)%nat -> awaits_within n rest p -> awaits_within m rest p.
Proof.
  revert n m. induction p as [s c|s k IH]; intros n m Hnm; cbn; [lia|].
  destruct n as [|n]; [intros []|]. destruct m as [|m]; [intros; lia|].
  intros H s'. apply (IH s' n m); [lia|apply H].
Qed.

Lemma within_bind {A B} (n : nat) (rest : Completion A -> nat) (rest' : Completion B -> nat)
    (m : Async A) (f : A -> Async B) (s : State) :
  awaits_within n rest (m s) ->
  (forall a s', awaits_within (rest (Normal a)) rest' (f a s')) ->
  (forall e, (rest' (Throw e) <= rest (Throw e))%nat) ->
  awaits_within n rest' (bind m f s).
Proof.
  unfold bind. intros Hm Hf He. revert n Hm.
  induction (m s) as [s0 [a|e]|s0 k0 IH]; intros n Hm; cbn in *.
  - eapply within_mono; [exact Hm|apply Hf].
  - specialize (He e). lia.
  - destruct n as [|n]; [contradiction|]. intros s'. apply IH, Hm.
Qed.

Lemma within_try_catch {A} (n : nat) (rest rest' : Completion A -> nat)
    (m : Async A) (h : Error.t -> Async A) (s : State) :
  awaits_within n rest (m s) ->
  (forall e s', awaits_within (rest (Throw e)) rest' (h e s')) ->
  (forall a, (rest' (Normal a) <= rest (Normal a))%nat) ->
  awaits_within n rest' (try_catch m h s).
Proof.
  unfold try_catch. intros Hm Hh Ha. revert n Hm.
  induction (m s) as [s0 [a|e]|s0 k0 IH]; intros n Hm; cbn in *.
  - specialize (Ha a). lia.
  - eapply within_mono; [exact Hm|apply Hh].
  - destruct n as [|n]; [contradiction|]. intros s'. apply IH, Hm.
Qed.

Lemma within_le {A} (n : nat) (rest : Completion A -> nat) (p : Step A) :
  awaits_within n rest p -> awaits_le n p.
Proof.
  revert n. induction p as [s c|s k IH]; intros n; cbn; [auto|].
  destruct n as [|n]; [auto|]. intros H s'. apply IH, H.
Qed.

Lemma le_within {A} (n : nat) (p : Step A) :
  awaits_le n p -> awaits_within n (fun _ => 0%nat) p.
Proof.
  revert n. induction p as [s c|s k IH]; intros n; cbn; [lia|].
  destruct n as [|n]; [auto|]. intros H s'. apply IH, H.
Qed.

Lemma within_await {A} (n : nat) (rest : Completion A -> nat) rq (c : Completion A) s :
  (rest c <= n)%nat -> awaits_within (S n) rest (await rq c s).
Proof. intros H. cbn. intros _. exact H. Qed.

(** A check awaits at most two answers: the receipt, and then either the
    block of the receipt or the sender's next nonce. *)
Lemma check_awaits this txMeta s : awaits_le 2 (_checkPendingTx this txMeta s).
Proof.
  unfold _checkPendingTx.
  destruct (negb _); [exact Logic.I|].
  destruct (hash txMeta) as [[|c h]|]; [exact Logic.I| |exact Logic.I].
  apply (awaits_le_bind 0 2); [exact Logic.I|]. intros taken s1.
  destruct taken; [exact Logic.I|].
  apply (within_le 2 (fun _ => 0%nat)).
  apply (within_bind 2 after_try).
  - apply (within_try_catch 2 after_try).
    + apply (within_bind 2 (fun c => match c with Normal _ => 1 | Throw _ => 0 end)%nat).
      * apply within_await. destruct (getTransactionReceipt _ _); lia.
      * intros [receipt|] s2; [|cbn; lia].
        destruct (JS.truthy _); [|cbn; lia].
        apply (within_bind 1 (fun _ => 0%nat)).
        -- apply within_await. lia.
        -- intros [blk|] s3; [|cbn; lia].
           apply (within_bind 0 (fun _ => 0%nat)); [cbn; lia| |intros; cbn; lia].
           intros _ s4. cbn. lia.
        -- intros e. cbn. lia.
      * intros e. cbn. lia.
    + intros e s2. cbn [after_try].
      apply (within_bind 0 (fun _ => 0%nat)); [cbn; lia| |intros; cbn; lia].
      intros _ s3.
      apply (within_bind 0 (fun _ => 0%nat)); [cbn; lia| |intros; cbn; lia].
      intros _ s4. cbn. lia.
    + intros a. lia.
  - intros [|] s2; cbn [after_try]; [cbn; lia|].
    apply le_within. apply (awaits_le_bind 1 0); [apply dropped_awaits|].
    intros [|] s3; exact Logic.I.
  - intros e. cbn. lia.
Qed.

Section CheckFollows.

Variable R : State -> State -> Prop.
Hypothesis R_refl : forall s, R s s.
Hypothesis R_trans : forall s1 s2 s3, R s1 s2 -> R s2 s3 -> R s1 s3.
Hypothesis R_log : forall a s, R s (log a s).
Hypothesis R_insert : forall s k n,
  (1 <= n <= DROPPED_BUFFER_COUNT)%nat ->
  R s (with_buffer (<[k := n]> (droppedBlocksBufferByHash s)) s).
Hypothesis R_delete : forall s k,
  R s (with_buffer (delete k (droppedBlocksBufferByHash s)) s).

Ltac follow :=
  first [ apply follows_await; assumption | apply follows_emit; assumption
        | apply follows_act; assumption | apply R_refl ].

Lemma dropped_follows this txMeta s : follows R s (_checkIfTxWasDropped this txMeta s).
Proof.
  unfold _checkIfTxWasDropped.
  apply follows_bind; [assumption|follow|]. intros next s'.
  destruct (JS.ge _ _); [follow|].
  apply follows_sync; [apply counting_sync|]. rewrite counting_run.
  destruct (bump _) as [n|] eqn:Hbump; cbn [fst].
  - apply R_insert. eapply bump_range; eauto.
  - apply R_delete.
Qed.

Lemma check_follows this txMeta s : follows R s (_checkPendingTx this txMeta s).
Proof.
  unfold _checkPendingTx.
  destruct (negb _); [follow|].
  destruct (hash txMeta) as [[|c h]|]; [follow| |follow].
  apply follows_bind; [assumption|follow|]. intros taken s1.
  destruct taken; [follow|].
  apply follows_bind; [assumption| |].
  - apply follows_try_catch; [assumption| |].
    + apply follows_bind; [assumption|follow|]. intros [receipt|] s2; [|follow].
      destruct (JS.truthy _); [|follow].
      apply follows_bind; [assumption|follow|]. intros [blk|] s3; [|follow].
      apply follows_bind; [assumption|follow|]. intros _ s4. follow.
    + intros e s2.
      apply follows_bind; [assumption|follow|]. intros _ s3.
      apply follows_bind; [assumption|follow|]. intros _ s4. follow.
  - intros [|] s2; [follow|].
    apply follows_bind; [assumption|apply dropped_follows|].
    intros [|] s3; follow.
Qed.

(** A resubmission with its handler only appends to the trace. *)
Lemma resubmit_one_follows this blockNumber txMeta s :
  follows R s (resubmit_one this blockNumber txMeta s).
Proof.
  unfold resubmit_one. apply follows_try_catch; [assumption| |].
  - apply follows_bind; [assumption| |intros; follow].
    unfold _resubmitTx.
    apply follows_bind; [assumption|destruct (negb _); follow|]. intros _ s1.
    destruct (JS.le _ _); [follow|].
    destruct (rawTx txMeta) as [raw|].
    + destruct (publishTransaction this) as [publish|]; [|follow].
      apply follows_bind; [assumption|follow|]. intros txHash s2.
      apply follows_bind; [assumption|follow|]. intros _ s3. follow.
    + destruct (approveTransaction this) as [approve|]; [|follow].
      apply follows_bind; [assumption|follow|]. intros _ s2. follow.
  - intros e s1. unfold resubmit_catch.
    destruct (isKnownTx _); [follow|].
    apply follows_bind; [assumption|follow|]. intros _ s2. follow.
Qed.

End CheckFollows.

(** ** The operations on the whole pending set *)

Lemma rest_run (batch : Completion unit) (s : State) :
  run (updatePendingTxs_rest batch s) =
  (log ReleaseLock
     match batch with
     | Normal _ => s
     | Throw e =>
         log (LogErrorObject e)
           (log (LogError "PendingTransactionTracker - Error updating pending transactions") s)
     end,
   Normal tt).
Proof.
  unfold updatePendingTxs_rest. destruct batch as [[]|e]; run_simpl; reflexivity.
Qed.

Lemma continue_promises s ts : tick_promises (continue s ts) = ts.
Proof.
  unfold continue. destruct (promise_all ts) as [batch|]; [|reflexivity].
  rewrite rest_run. reflexivity.
Qed.

Lemma continue_result s ts :
  tick_result (continue s ts) =
  match promise_all ts with
  | Some _ => Some (Normal tt)
  | None => None
  end.
Proof.
  unfold continue. destruct (promise_all ts) as [batch|]; [|reflexivity].
  rewrite rest_run. reflexivity.
Qed.

Lemma continue_released s ts :
  tick_result (continue s ts) = Some (Normal tt) ->
  In ReleaseLock (trace (tick_state (continue s ts))).
Proof.
  unfold continue. destruct (promise_all ts) as [batch|]; [|discriminate].
  rewrite rest_run. intros _. cbn. apply in_or_app. right. now left.
Qed.

Lemma tick_deliver_promises (t : Tick) (i : nat) :
  tick_promises (tick_deliver t i) = snd (deliver i (tick_state t, tick_promises t)).
Proof.
  unfold tick_deliver. destruct (deliver i (tick_state t, tick_promises t)) as [s ts].
  destruct (tick_result t); [reflexivity|apply continue_promises].
Qed.

Section Operations_follow.

Variable R : State -> State -> Prop.
Hypothesis R_refl : forall s, R s s.
Hypothesis R_trans : forall s1 s2 s3, R s1 s2 -> R s2 s3 -> R s1 s3.
Hypothesis R_log : forall a s, R s (log a s).

Lemma continue_follows s ts : R s (tick_state (continue s ts)).
Proof.
  unfold continue. destruct (promise_all ts) as [batch|]; [|apply R_refl].
  rewrite rest_run. cbn. destruct batch as [[]|e]; eauto.
Qed.

Lemma tick_deliver_follows (t : Tick) (i : nat) :
  Forall (promise_follows R) (tick_promises t) ->
  R (tick_state t) (tick_state (tick_deliver t i)) /\
  Forall (promise_follows R) (tick_promises (tick_deliver t i)).
Proof.
  intros Hts. rewrite tick_deliver_promises.
  destruct (deliver_follows R R_refl i (tick_state t) (tick_promises t) Hts) as [H1 H2].
  split; [|exact H2]. unfold tick_deliver.
  destruct (deliver i (tick_state t, tick_promises t)) as [s ts]. cbn [fst] in H1.
  destruct (tick_result t); [exact H1|].
  eapply R_trans; [exact H1|apply continue_follows].
Qed.

Lemma ticks_follow (schedule : list nat) (t : Tick) :
  Forall (promise_follows R) (tick_promises t) ->
  R (tick_state t) (tick_state (foldl tick_deliver t schedule)) /\
  Forall (promise_follows R) (tick_promises (foldl tick_deliver t schedule)).
Proof.
  revert t. induction schedule as [|i schedule IH]; intros t Hts; cbn [foldl].
  - auto.
  - destruct (tick_deliver_follows t i Hts) as [H1 H2].
    destruct (IH _ H2) as [H3 H4]. eauto.
Qed.

Hypothesis R_insert : forall s k n,
  (1 <= n <= DROPPED_BUFFER_COUNT)%nat ->
  R s (with_buffer (<[k := n]> (droppedBlocksBufferByHash s)) s).
Hypothesis R_delete : forall s k,
  R s (with_buffer (delete k (droppedBlocksBufferByHash s)) s).

Lemma start_follows this s :
  R s (tick_state (updatePendingTxs_start this s)) /\
  Forall (promise_follows R) (tick_promises (updatePendingTxs_start this s)).
Proof.
  unfold updatePendingTxs_start.
  destruct (nonceTracker this) as [nt|]; [|cbn; auto].
  destruct (getGlobalLock nt) as [[]|e]; [|cbn; auto].
  destruct (getPendingTransactions this) as [pending|].
  - destruct (start_all_follows R R_refl R_trans
                (map (_checkPendingTx this) pending) (log (Call ReqGetGlobalLock) s))
      as [H1 H2].
    { apply Forall_map, Forall_forall. intros txMeta _ s'.
      apply check_follows; assumption. }
    destruct (start_all _ _) as [s1 ts]. cbn [fst snd] in *.
    rewrite continue_promises. split; [|exact H2].
    eapply R_trans; [apply R_log|]. eapply R_trans; [exact H1|apply continue_follows].
  - rewrite rest_run. cbn. split; [|constructor]. eauto.
Qed.

(** Every reconcile tick respects [R], whatever the schedule. *)
Lemma updatePendingTxs_follows this schedule s :
  R s (tick_state (updatePendingTxs this schedule s)) /\
  Forall (promise_follows R) (tick_promises (updatePendingTxs this schedule s)).
Proof.
  unfold updatePendingTxs.
  destruct (start_follows this s) as [H1 H2].
  destruct (ticks_follow schedule _ H2) as [H3 H4]. eauto.
Qed.

(** Every resubmit tick respects [R], whatever the schedule. *)
Lemma resubmit_tick_follows this blockNumber schedule s :
  R s (fst (snd (resubmit_tick this blockNumber schedule s))).
Proof.
  unfold resubmit_tick, resubmitPendingTxs.
  assert (Hgo : forall ts s1, R s s1 -> Forall (promise_follows R) ts ->
            R s (fst (foldl (fun st i => deliver i st) (s1, ts) schedule))).
  { intros ts s1 H1 Hts.
    destruct (schedule_follows R R_refl R_trans schedule s1 ts Hts) as [H2 _]. eauto. }
  destruct (getPendingTransactions this) as [pending|]; cbn [snd].
  - destruct (length pending =? 0)%nat; cbn [snd].
    + apply Hgo; [apply R_refl|constructor].
    + destruct (start_all_follows R R_refl R_trans
                  (map (resubmit_one this blockNumber) pending) s) as [H1 H2].
      { apply Forall_map, Forall_forall. intros txMeta _ s'.
        apply resubmit_one_follows; assumption. }
      destruct (start_all _ _) as [s1 ts]. apply Hgo; assumption.
  - apply Hgo; [apply R_refl|constructor].
Qed.

End Operations_follow.

(** ** The buffer *)

Lemma buffer_ok_empty : buffer_ok ∅.
Proof. intros k n H. rewrite lookup_empty in H. discriminate. Qed.

Lemma buffer_ok_insert b k n :
  (1 <= n <= DROPPED_BUFFER_COUNT)%nat -> buffer_ok b -> buffer_ok (<[k := n]> b).
Proof.
  intros Hn Hb k' n' H. destruct (decide (k = k')) as [->|Hne].
  - rewrite lookup_insert_eq in H. injection H as <-. exact Hn.
  - rewrite lookup_insert_ne in H by assumption. eapply Hb, H.
Qed.

Lemma buffer_ok_delete b k : buffer_ok b -> buffer_ok (delete k b).
Proof.
  intros Hb k' n' H. apply lookup_delete_Some in H as [_ H]. eapply Hb, H.
Qed.

(** An item that appears superseded is one whose observation is counted. *)
Lemma superseded_counted this txMeta txHash :
  submitted txMeta -> observed txMeta txHash -> superseded this txMeta txHash ->
  counted this txMeta.
Proof.
  intros Hsub [Hh Hne] (Hfree & (r & Hq & Hr) & (n & next & Hn & Hcount & Hlt)).
  split; [exact Hsub|]. split; [|split; [|split]].
  - rewrite Hh. destruct txHash; [congruence|reflexivity].
  - apply nonce_free_iff, Hfree.
  - exists txHash, r. auto.
  - exists next. split; [exact Hcount|]. rewrite Hn. cbn. apply Z.leb_gt, Hlt.
Qed.

(** What one check does to the buffer. *)
Lemma check_buffer this txMeta b :
  let s := checked this txMeta b in
  droppedBlocksBufferByHash s = b /\ ~ counted this txMeta \/
  counted this txMeta /\
  match bump (b !! hash txMeta) with
  | Some n =>
      droppedBlocksBufferByHash s = <[hash txMeta := n]> b /\ events (trace s) = []
  | None =>
      droppedBlocksBufferByHash s = delete (hash txMeta) b /\
      events (trace s) = [tx_dropped (id txMeta)]
  end.
Proof.
  cbv zeta. unfold checked, check, _checkPendingTx, counted, submitted.
  destruct (String.eqb_spec (status txMeta) "submitted") as [Hsub|Hsub]; cbn [negb].
  2:{ left. split; [reflexivity|]. intros (H & _). contradiction. }
  destruct (hash txMeta) as [[|c h]|] eqn:Hh.
  1,3: left; split; [reflexivity|]; intros (_ & H & _); discriminate.
  run_simpl.
  destruct (_checkIfNonceIsTaken this txMeta) as [[|]|e] eqn:Htaken; run_simpl.
  1,3: left; split; [reflexivity|]; intros (_ & _ & H & _); discriminate.
  destruct (getTransactionReceipt (query this) (String c h)) as [r|e] eqn:Hq; run_simpl.
  2:{ left. split; [reflexivity|].
      intros (_ & _ & _ & (h' & r & Hh' & Hq' & _) & _).
      injection Hh' as <-. congruence. }
  assert (Hconfirmed : forall receipt, r = Some receipt -> JS.truthy (blockNumber receipt) = true ->
    ~ (exists txHash r0, Some (String c h) = Some txHash /\
         getTransactionReceipt (query this) txHash = Normal r0 /\ no_receipt r0)).
  { intros receipt -> Hnum (h' & r0 & Hh' & Hq' & Hr0). injection Hh' as <-.
    rewrite Hq in Hq'. injection Hq' as <-. cbn in Hr0. congruence. }
  assert (Hcount : forall s0,
    droppedBlocksBufferByHash s0 = b -> events (trace s0) = [] -> no_receipt r ->
    let res :=
      match run (_checkIfTxWasDropped this txMeta s0) with
      | (s', Normal a) => run ((if a then emit (tx_dropped (id txMeta)) else ret tt) s')
      | (s', Throw e) => (s', Throw e)
      end in
    droppedBlocksBufferByHash (fst res) = b /\
    ~ (exists next,
         getTransactionCount (query this) (from (txParams txMeta)) = Normal next /\
         JS.ge (JS.parseInt16 (nonce (txParams txMeta))) (Some next) = false) \/
    (exists next,
         getTransactionCount (query this) (from (txParams txMeta)) = Normal next /\
         JS.ge (JS.parseInt16 (nonce (txParams txMeta))) (Some next) = false) /\
    match bump (b !! Some (String c h)) with
    | Some n =>
        droppedBlocksBufferByHash (fst res) = <[Some (String c h) := n]> b /\
        events (trace (fst res)) = []
    | None =>
        droppedBlocksBufferByHash (fst res) = delete (Some (String c h)) b /\
        events (trace (fst res)) = [tx_dropped (id txMeta)]
    end).
  { intros s0 Hb0 Hev0 Hr. cbv zeta. unfold _checkIfTxWasDropped.
    rewrite run_bind, run_await.
    destruct (getTransactionCount (query this) (from (txParams txMeta))) as [next|e] eqn:Hc.
    2:{ left. split; [exact Hb0|]. intros (next & Hn & _). discriminate. }
    destruct (JS.ge (JS.parseInt16 (nonce (txParams txMeta))) (Some next)) eqn:Hge.
    { left. run_simpl. split; [exact Hb0|]. intros (next' & Hn & Hge').
      injection Hn as <-. congruence. }
    right. split; [eauto|]. rewrite counting_run, Hh. cbn [log droppedBlocksBufferByHash].
    rewrite Hb0. destruct (bump (b !! Some (String c h))) as [n|]; run_simpl.
    - split; [reflexivity|]. cbn [with_buffer log trace].
      rewrite events_app, Hev0. reflexivity.
    - split; [reflexivity|]. cbn [with_buffer log trace].
      rewrite !events_app, Hev0. reflexivity. }
  destruct r as [receipt|].
  - destruct (JS.truthy (blockNumber receipt)) eqn:Hnum.
    + (* a receipt with a block number: confirmed, or a warning *)
      run_simpl.
      destruct (getBlockByHash (query this) (blockHash receipt) false) as [[blk|]|e];
        run_simpl; left; (split; [reflexivity|]);
        intros (_ & _ & _ & Hr & _); exact (Hconfirmed receipt eq_refl Hnum Hr).
    + run_simpl.
      destruct (Hcount (log (Call (ReqGetTransactionReceipt (String c h))) (init b))
                  eq_refl eq_refl Hnum) as [[Hb Hn]|[Hn Hres]].
      * left. split; [exact Hb|]. intros (_ & _ & _ & _ & H). contradiction.
      * right. split; [|exact Hres].
        split; [exact Hsub|]. split; [reflexivity|]. split; [reflexivity|].
        split; [|exact Hn]. exists (String c h), (Some receipt). auto.
  - run_simpl.
    destruct (Hcount (log (Call (ReqGetTransactionReceipt (String c h))) (init b))
                eq_refl eq_refl Logic.I) as [[Hb Hn]|[Hn Hres]].
    + left. split; [exact Hb|]. intros (_ & _ & _ & _ & H). contradiction.
    + right. split; [|exact Hres].
      split; [exact Hsub|]. split; [reflexivity|]. split; [reflexivity|].
      split; [|exact Hn]. exists (String c h), None. cbn. auto.
Qed.

(** C10 (as the code has it). Every counter of the dropped-block buffer is
    between 1 and the threshold 3: the buffer of a new tracker is empty, a
    reconcile tick keeps the property under every schedule, and a resubmit
    tick does not touch the buffer.  One check changes the buffer only at
    the hash of its item, and only when it counts an observation (it reaches
    the ledger, finds no receipt, and does not find the item's nonce at or
    above the network's next nonce): it then sets the entry to 1, adds 1 to
    it, or, when it has reached the threshold, removes it and emits dropped.
    On every other path, the paths that emit confirmed, failed, a warning or
    the dropped of a nonce collision among them, the buffer is left as it
    is. *)
Theorem buffer_invariant :
  buffer_ok (droppedBlocksBufferByHash new_state) /\
  (forall this schedule s,
     buffer_ok (droppedBlocksBufferByHash s) ->
     buffer_ok (droppedBlocksBufferByHash (tick_state (updatePendingTxs this schedule s)))) /\
  (forall this blockNumber schedule s,
     droppedBlocksBufferByHash (fst (snd (resubmit_tick this blockNumber schedule s))) =
     droppedBlocksBufferByHash s) /\
  (forall this txMeta b,
     let s := checked this txMeta b in
     droppedBlocksBufferByHash s = b /\ ~ counted this txMeta \/
     counted this txMeta /\
     match bump (b !! hash txMeta) with
     | Some n =>
         droppedBlocksBufferByHash s = <[hash txMeta := n]> b /\ events (trace s) = []
     | None =>
         droppedBlocksBufferByHash s = delete (hash txMeta) b /\
         events (trace s) = [tx_dropped (id txMeta)]
     end).
Proof.
  split; [exact buffer_ok_empty|]. split; [|split].
  - intros this schedule s.
    apply (updatePendingTxs_follows keeps_buffer_ok); unfold keeps_buffer_ok.
    + auto.
    + auto.
    + intros a s0 H. exact H.
    + intros s0 k n Hn H. apply buffer_ok_insert; assumption.
    + intros s0 k H. apply buffer_ok_delete; assumption.
  - intros this blockNumber schedule s.
    apply (resubmit_tick_follows same_buffer); unfold same_buffer.
    + auto.
    + intros s1 s2 s3 H12 H23. congruence.
    + reflexivity.
  - intros this txMeta b. apply check_buffer.
Qed.

(** C10 as the document states it fails: after one counted observation of
    [tx0] its hash has an entry; the next check finds the receipt and emits
    confirmed, and the entry is still there. *)
Lemma entry_survives_confirmation :
  let s1 := checked Examples.t0 Examples.tx0 ∅ in
  let s2 := checked (Examples.tracker Examples.q_mined [Examples.tx0] []) Examples.tx0
              (droppedBlocksBufferByHash s1) in
  events (trace s2) = [tx_confirmed 1 Examples.receipt0 (Some "0x7")] /\
  droppedBlocksBufferByHash s2 !! Some "0xabc"%string = Some 1%nat.
Proof. split; reflexivity. Qed.

Lemma buffer_invariant_witness :
  buffer_ok (droppedBlocksBufferByHash
               (tick_state (updatePendingTxs Examples.tAB [0; 0; 1; 1]%nat new_state))) /\
  droppedBlocksBufferByHash
    (fst (snd (resubmit_tick Examples.t0 "0x10" [0]%nat new_state))) = ∅.
Proof.
  destruct buffer_invariant as (H0 & Hupdate & Hresubmit & _).
  split.
  - exact (Hupdate Examples.tAB [0; 0; 1; 1]%nat new_state H0).
  - exact (Hresubmit Examples.t0 "0x10"%string [0]%nat new_state).
Defined.

(** ** Completion of a reconcile tick *)

Lemma to_promise_awaits (n : nat) (p : Step unit) :
  awaits_le (S n) p -> promise_awaits_le n (snd (to_promise p)).
Proof. destruct p as [s c|s k]; cbn; auto. Qed.

Lemma start_all_awaits (n : nat) (ms : list (Async unit)) (s : State) :
  Forall (fun m => forall s', awaits_le (S n) (m s')) ms ->
  Forall (promise_awaits_le n) (snd (start_all ms s)) /\
  length (snd (start_all ms s)) = length ms.
Proof.
  intros Hms. revert s. induction Hms as [|m ms Hm _ IH]; intros s; cbn.
  - split; [constructor|reflexivity].
  - pose proof (to_promise_awaits n (m s) (Hm s)) as Ht.
    destruct (to_promise (m s)) as [s1 t]. cbn in Ht.
    destruct (IH s1) as [Hts Hlen]. destruct (start_all ms s1) as [s2 ts]. cbn in *.
    split; [constructor; assumption|congruence].
Qed.

Lemma resume_awaits (n : nat) (t : Promise) (s : State) :
  promise_awaits_le n t ->
  is_settled (snd (resume t s)) = true \/
  exists n', n = S n' /\ promise_awaits_le n' (snd (resume t s)).
Proof.
  destruct t as [k|c]; cbn; [|auto]. intros Hk. specialize (Hk s).
  destruct (k s) as [s' c|s' k']; cbn in *; [auto|].
  destruct n as [|n']; [contradiction|]. right. eauto.
Qed.

Lemma deliver_length i s ts : length (snd (deliver i (s, ts))) = length ts.
Proof.
  cbn. destruct (ts !! i) as [t|]; [|reflexivity].
  destruct (resume t s) as [s' t']. cbn. apply length_insert.
Qed.

Lemma deliver_lookup_ne i j s ts : i <> j -> snd (deliver i (s, ts)) !! j = ts !! j.
Proof.
  intros Hne. cbn. destruct (ts !! i) as [t|]; [|reflexivity].
  destruct (resume t s) as [s' t']. cbn. apply list_lookup_insert_ne, Hne.
Qed.

Lemma deliver_lookup_eq i s ts t :
  ts !! i = Some t -> snd (deliver i (s, ts)) !! i = Some (snd (resume t s)).
Proof.
  intros Hi. cbn. rewrite Hi. destruct (resume t s) as [s' t']. cbn.
  apply list_lookup_insert_eq. eapply lookup_lt_Some, Hi.
Qed.

Lemma settle_all (schedule : list nat) (t : Tick) (fuel : nat -> nat) :
  will_settle (tick_promises t) fuel schedule ->
  Forall (fun p => is_settled p = true) (tick_promises (foldl tick_deliver t schedule)) /\
  length (tick_promises (foldl tick_deliver t schedule)) = length (tick_promises t).
Proof.
  revert t fuel. induction schedule as [|j schedule IH]; intros t fuel Hw; cbn [foldl].
  - split; [|reflexivity]. apply Forall_lookup. intros i p Hi.
    destruct (Hw i p Hi) as [H|[_ H]]; [exact H|cbn in H; lia].
  - destruct (IH (tick_deliver t j)
                (fun i => if decide (i = j) then pred (fuel j) else fuel i)) as [H1 H2].
    + intros i p. rewrite tick_deliver_promises. destruct (decide (i = j)) as [->|Hne].
      * destruct (tick_promises t !! j) as [tj|] eqn:Hj.
        2:{ intros Hi. apply lookup_lt_Some in Hi. rewrite deliver_length in Hi.
            apply lookup_ge_None in Hj. lia. }
        rewrite (deliver_lookup_eq j _ _ tj Hj). intros Hi. injection Hi as <-.
        destruct (Hw j tj Hj) as [Hset|[Hle Hcount]].
        -- left. destruct tj; [discriminate|exact Hset].
        -- destruct (resume_awaits (fuel j) tj (tick_state t) Hle) as [Hs|(n' & Hn & Hle')].
           ++ left. exact Hs.
           ++ right. rewrite Hn. cbn [pred]. split; [exact Hle'|].
              rewrite count_occ_cons_eq in Hcount by reflexivity. lia.
      * rewrite deliver_lookup_ne by congruence. intros Hi.
        destruct (Hw i p Hi) as [Hset|[Hle Hcount]]; [left; exact Hset|right].
        split; [exact Hle|]. rewrite count_occ_cons_neq in Hcount by congruence.
        exact Hcount.
    + split; [exact H1|]. rewrite H2, tick_deliver_promises. apply deliver_length.
Qed.

Lemma settled_promise_all (ts : list Promise) :
  Forall (fun p => is_settled p = true) ts -> promise_all ts <> None.
Proof.
  intros Hts. unfold promise_all. destruct (first_rejection ts); [discriminate|].
  assert (Hall : forallb is_settled ts = true).
  { induction Hts as [|p ts Hp0 _ IH]; [reflexivity|]. cbn. now rewrite Hp0, IH. }
  rewrite Hall. discriminate.
Qed.

Lemma extends_trace_refl s : extends_trace s s.
Proof. exists []. now rewrite app_nil_r. Qed.

Lemma extends_trace_trans s1 s2 s3 :
  extends_trace s1 s2 -> extends_trace s2 s3 -> extends_trace s1 s3.
Proof. intros [l1 H1] [l2 H2]. exists (l1 ++ l2). now rewrite H2, H1, app_assoc. Qed.

Lemma extends_trace_log a s : extends_trace s (log a s).
Proof. exists [a]. reflexivity. Qed.

Lemma extends_trace_buffer b s : extends_trace s (with_buffer b s).
Proof. exists []. cbn. now rewrite app_nil_r. Qed.

Lemma continue_returned s ts :
  Forall (promise_follows extends_trace) ts -> returned (continue s ts).
Proof.
  intros Hts. unfold returned. rewrite continue_promises, continue_result.
  split; [|split; [|split]].
  - destruct (promise_all ts); [discriminate|reflexivity].
  - unfold no_error. destruct (promise_all ts); auto.
  - intros H. apply continue_released. rewrite continue_result. exact H.
  - exact Hts.
Qed.

Lemma tick_deliver_returned (t : Tick) (i : nat) : returned t -> returned (tick_deliver t i).
Proof.
  intros (Hnone & Herr & Hrel & Hts).
  destruct (tick_deliver_follows extends_trace extends_trace_refl extends_trace_trans
              extends_trace_log t i Hts) as [Hext Hts'].
  destruct (deliver_follows extends_trace extends_trace_refl i (tick_state t) (tick_promises t) Hts)
    as [_ Hd].
  unfold tick_deliver in *.
  destruct (deliver i (tick_state t, tick_promises t)) as [s ts]. cbn [snd] in Hd.
  destruct (tick_result t) as [c|] eqn:Hres.
  - unfold returned. cbn [tick_result tick_promises tick_state] in *.
    split; [discriminate|]. split; [exact Herr|]. split; [|exact Hd].
    intros Hc. destruct Hext as [l Hl]. rewrite Hl. apply in_or_app. left. apply Hrel, Hc.
  - apply continue_returned, Hd.
Qed.

Lemma start_returned this s nonceTracker0 :
  nonceTracker this = Some nonceTracker0 ->
  getGlobalLock nonceTracker0 = Normal tt ->
  returned (updatePendingTxs_start this s).
Proof.
  intros Hnt Hlock. unfold updatePendingTxs_start. rewrite Hnt, Hlock.
  destruct (getPendingTransactions this) as [pending|].
  - destruct (start_all_follows extends_trace extends_trace_refl extends_trace_trans
                (map (_checkPendingTx this) pending) (log (Call ReqGetGlobalLock) s))
      as [_ H2].
    { apply Forall_map, Forall_forall. intros txMeta _ s'.
      apply check_follows.
      - apply extends_trace_refl.
      - apply extends_trace_trans.
      - apply extends_trace_log.
      - intros s0 k n _. apply extends_trace_buffer.
      - intros s0 k. apply extends_trace_buffer. }
    destruct (start_all _ _) as [s1 ts]. apply continue_returned, H2.
  - rewrite rest_run. unfold returned, no_error. cbn.
    split; [discriminate|]. split; [auto|]. split; [|constructor].
    intros _. apply in_or_app. right. now left.
Qed.

Lemma updatePendingTxs_returned this schedule s nonceTracker0 :
  nonceTracker this = Some nonceTracker0 ->
  getGlobalLock nonceTracker0 = Normal tt ->
  returned (updatePendingTxs this schedule s).
Proof.
  intros Hnt Hlock. unfold updatePendingTxs.
  pose proof (start_returned this s nonceTracker0 Hnt Hlock) as H.
  revert H. generalize (updatePendingTxs_start this s).
  induction schedule as [|i schedule IH]; intros t Ht; cbn [foldl]; [exact Ht|].
  apply IH, tick_deliver_returned, Ht.
Qed.

(** What holds of reconcile-pending whatever the checks do: once the lock
    is acquired the operation never fails; under a schedule that delivers
    to every item at least twice every check runs to its end, a failed
    check does not stop another, and the operation returns normally with
    the lock released. *)
Lemma updatePendingTxs_completes this schedule s nonceTracker0 pending :
  nonceTracker this = Some nonceTracker0 ->
  getGlobalLock nonceTracker0 = Normal tt ->
  getPendingTransactions this = Some pending ->
  delivers_at_least 2 (length pending) schedule ->
  let t := updatePendingTxs this schedule s in
  tick_result t = Some (Normal tt) /\
  In ReleaseLock (trace (tick_state t)) /\
  length (tick_promises t) = length pending /\
  Forall (fun p => is_settled p = true) (tick_promises t).
Proof.
  intros Hnt Hlock Hpending Hfair. cbv zeta.
  destruct (updatePendingTxs_returned this schedule s nonceTracker0 Hnt Hlock)
    as (Hnone & Herr & Hrel & _).
  assert (Hsettle :
    Forall (fun p => is_settled p = true) (tick_promises (updatePendingTxs this schedule s)) /\
    length (tick_promises (updatePendingTxs this schedule s)) = length pending).
  { unfold updatePendingTxs.
    destruct (start_all_awaits 1 (map (_checkPendingTx this) pending)
                (log (Call ReqGetGlobalLock) s)) as [Hts Hlen].
    { apply Forall_map, Forall_forall. intros txMeta _ s'. apply check_awaits. }
    rewrite length_map in Hlen.
    assert (Hstart : tick_promises (updatePendingTxs_start this s) =
                     snd (start_all (map (_checkPendingTx this) pending)
                            (log (Call ReqGetGlobalLock) s))).
    { unfold updatePendingTxs_start. rewrite Hnt, Hlock, Hpending.
      destruct (start_all _ _) as [s1 ts]. apply continue_promises. }
    destruct (settle_all schedule (updatePendingTxs_start this s) (fun _ => 1%nat))
      as [H1 H2].
    - intros i p Hi. right. rewrite Hstart in Hi. split.
      + rewrite Forall_lookup in Hts. eapply Hts, Hi.
      + apply lookup_lt_Some in Hi. specialize (Hfair i). lia.
    - split; [exact H1|]. rewrite H2, Hstart. exact Hlen. }
  destruct Hsettle as [Hall Hlen].
  assert (Hres : tick_result (updatePendingTxs this schedule s) = Some (Normal tt)).
  { destruct Herr as [Hn|Hs]; [|exact Hs].
    exfalso. apply (settled_promise_all _ Hall), Hnone, Hn. }
  auto.
Qed.

(** C3 (at the failing input). Two pending items: [txA], whose next-nonce
    query fails, and [txB], which is mined.  The answers for [txA] arrive
    first.  When the check of [txA] fails, [updatePendingTxs] logs the error,
    releases the lock and returns, while the check of [txB] is still
    waiting for its receipt; that check then goes on, after the release, to
    fetch the block and to emit confirmed. *)
Theorem lock_released_while_check_pending :
  let t2 := updatePendingTxs Examples.tAB [0; 0]%nat new_state in
  let t4 := updatePendingTxs Examples.tAB [0; 0; 1; 1]%nat new_state in
  tick_result t2 = Some (Normal tt) /\
  map is_settled (tick_promises t2) = [true; false] /\
  trace (tick_state t2) =
    [Call ReqGetGlobalLock;
     Call (ReqGetTransactionReceipt "0xaaa");
     Call (ReqGetTransactionReceipt "0xbbb");
     Call (ReqGetTransactionCount "0xf0a");
     LogError "PendingTransactionTracker - Error updating pending transactions";
     LogErrorObject Examples.networkError;
     ReleaseLock] /\
  trace (tick_state t4) =
    trace (tick_state t2) ++
    [Call (ReqGetBlockByHash (Some "0xb10c"%string) false);
     Emit (tx_confirmed 11 Examples.receipt0 (Some "0x7"%string))].
Proof. repeat split. Qed.

(** * Further properties

    ** Every check has one of the outcomes *)

Lemma check_has_outcome this txMeta b : check_outcome txMeta b (check this txMeta b).
Proof.
  unfold check, _checkPendingTx.
  destruct (negb _); [apply outcome_skipped|].
  destruct (hash txMeta) as [[|c h]|] eqn:Hh; [apply outcome_no_hash| |apply outcome_no_hash].
  run_simpl.
  destruct (_checkIfNonceIsTaken this txMeta) as [[|]|e]; run_simpl;
    [apply outcome_nonce_taken| |apply outcome_nonce_test_throws].
  destruct (getTransactionReceipt (query this) (String c h)) as [r|e]; run_simpl.
  2:{ apply (outcome_warning txMeta b (String c h) [ReqGetTransactionReceipt (String c h)] e);
        [exact Hh|now left]. }
  assert (Hdetect :
    check_outcome txMeta b
      match run (_checkIfTxWasDropped this txMeta
                   (log (Call (ReqGetTransactionReceipt (String c h))) (init b))) with
      | (s', Normal a) => run ((if a then emit (tx_dropped (id txMeta)) else ret tt) s')
      | (s', Throw e) => (s', Throw e)
      end).
  { unfold _checkIfTxWasDropped. rewrite run_bind, run_await.
    destruct (getTransactionCount (query this) (from (txParams txMeta))) as [next|e].
    2:{ apply outcome_count_fails, Hh. }
    destruct (JS.ge _ _); [run_simpl; apply outcome_not_superseded, Hh|].
    rewrite counting_run, Hh. cbn [log droppedBlocksBufferByHash init].
    destruct (bump (b !! Some (String c h))) as [n|] eqn:Hbump; run_simpl.
    - apply outcome_counted; [exact Hh|exact Hbump].
    - apply outcome_drop_declared; [exact Hh|exact Hbump]. }
  destruct r as [receipt|]; [|run_simpl; exact Hdetect].
  destruct (JS.truthy (blockNumber receipt)); [|run_simpl; exact Hdetect].
  run_simpl.
  destruct (getBlockByHash (query this) (blockHash receipt) false) as [[blk|]|e]; run_simpl.
  - apply outcome_confirmed, Hh.
  - apply (outcome_warning txMeta b (String c h)
             [ReqGetTransactionReceipt (String c h); ReqGetBlockByHash (blockHash receipt) false]
             destructure_null); [exact Hh|right; eauto].
  - apply (outcome_warning txMeta b (String c h)
             [ReqGetTransactionReceipt (String c h); ReqGetBlockByHash (blockHash receipt) false]
             e); [exact Hh|right; eauto].
Qed.

Lemma calls_map_Call (asked : list Request) (l : list Action) :
  calls (map Call asked ++ l) = asked ++ calls l.
Proof. induction asked as [|rq asked IH]; [reflexivity|]. cbn. now rewrite <- IH. Qed.

(** X1. One check emits at most one notification, whatever the ledger and
    the collaborators answer, and the notification it emits is about the
    item it checks: a check never reports two outcomes, and never an
    outcome of another item. *)
Theorem check_emits_at_most_one (this : PendingTransactionTracker) (txMeta : TxMeta)
    (b : gmap (option string) nat) :
  let evs := events (trace (checked this txMeta b)) in
  evs = [] \/ exists ev, evs = [ev] /\ event_item ev = id txMeta.
Proof.
  cbv zeta. unfold checked.
  destruct (check_has_outcome this txMeta b); cbn [fst trace init];
    try rewrite events_calls_app; cbn; eauto.
Qed.

(** X2. One check sends at most two queries, all to the ledger: none, or the
    receipt query for the hash of its item, followed by at most one of the
    query for a block and the query for the next nonce of the item's
    sender.  It never asks for the lock, and never approves or broadcasts. *)
Theorem check_queries (this : PendingTransactionTracker) (txMeta : TxMeta)
    (b : gmap (option string) nat) :
  let asked := calls (trace (checked this txMeta b)) in
  asked = [] \/
  exists txHash,
    hash txMeta = Some txHash /\
    (asked = [ReqGetTransactionReceipt txHash] \/
     (exists blockHash0,
         asked = [ReqGetTransactionReceipt txHash; ReqGetBlockByHash blockHash0 false]) \/
     asked = [ReqGetTransactionReceipt txHash;
              ReqGetTransactionCount (from (txParams txMeta))]).
Proof.
  cbv zeta. unfold checked.
  destruct (check_has_outcome this txMeta b)
    as [| | | |txHash asked e Hh Hasked|txHash receipt blk Hh|txHash e Hh|txHash Hh
        |txHash n Hh _|txHash Hh _];
    cbn [fst trace init]; try (left; reflexivity); right; exists txHash;
    (split; [exact Hh|]).
  - rewrite calls_map_Call. cbn. rewrite app_nil_r.
    destruct Hasked as [->|[bh ->]]; eauto.
  - right. left. eauto.
  - right. right. reflexivity.
  - right. right. reflexivity.
  - right. right. reflexivity.
  - right. right. reflexivity.
Qed.

(** X3. A check that fails (its promise is rejected) has emitted nothing,
    has written nothing into the item, and has left the buffer as it was. *)
Theorem failed_check_is_silent (this : PendingTransactionTracker) (txMeta : TxMeta)
    (b : gmap (option string) nat) (e : Error.t) :
  snd (check this txMeta b) = Throw e ->
  let s := checked this txMeta b in
  events (trace s) = [] /\
  written (id txMeta) (trace s) = [] /\
  droppedBlocksBufferByHash s = b.
Proof.
  cbv zeta. unfold checked.
  destruct (check_has_outcome this txMeta b); cbn [fst snd trace init droppedBlocksBufferByHash];
    intros Hc; try discriminate; repeat split.
Qed.

(** X4. A check writes the warning of its item exactly when it emits the
    warning notification: either it writes nothing and emits no warning, or
    it writes the warning made from an error once, and the one notification
    it emits is the warning that carries the item with that warning and the
    error. *)
Theorem warning_written_iff_emitted (this : PendingTransactionTracker) (txMeta : TxMeta)
    (b : gmap (option string) nat) :
  let s := checked this txMeta b in
  (written (id txMeta) (trace s) = [] /\
   forall item e, ~ In (tx_warning item e) (events (trace s))) \/
  (exists e,
      written (id txMeta) (trace s) = [loading_warning e] /\
      events (trace s) = [tx_warning (set_warning txMeta (loading_warning e)) e]).
Proof.
  cbv zeta. unfold checked.
  destruct (check_has_outcome this txMeta b)
    as [| | | |txHash asked e Hh Hasked|txHash receipt blk Hh|txHash e Hh|txHash Hh
        |txHash n Hh _|txHash Hh _];
    cbn [fst trace init].
  5:{ right. exists e. rewrite written_calls_app, events_calls_app. cbn.
      rewrite Z.eqb_refl. split; reflexivity. }
  all: left; split; [reflexivity|]; cbn; intros item e0 Hin;
    repeat (destruct Hin as [Hin|Hin]; [discriminate|]); exact Hin.
Qed.

Lemma failed_check_is_silent_witness :
  let s := checked Examples.tAB Examples.txA ∅ in
  events (trace s) = [] /\
  written 10 (trace s) = [] /\
  droppedBlocksBufferByHash s = ∅.
Proof.
  apply (failed_check_is_silent Examples.tAB Examples.txA ∅ Examples.networkError).
  reflexivity.
Defined.

(** ** The paths of a check that the settled properties do not follow *)

(** X5. A submitted item without an observed hash (no hash, or the empty
    one) gets exactly one failed notification, with the error named
    NoTxHashError; the check does nothing else: it calls no collaborator,
    so it goes this way whatever collaborators the tracker has or lacks. *)
Theorem missing_hash_fails (this : PendingTransactionTracker) (txMeta : TxMeta)
    (b : gmap (option string) nat) :
  submitted txMeta -> JS.truthy (hash txMeta) = false ->
  check this txMeta b =
    ({| droppedBlocksBufferByHash := b;
        trace := [Emit (tx_failed (id txMeta) noTxHashError)] |}, Normal tt) /\
  Error.name noTxHashError = "NoTxHashError"%string.
Proof.
  intros Hsub Hh. split; [|reflexivity].
  unfold check, _checkPendingTx. rewrite Hsub. cbn [String.eqb Ascii.eqb Bool.eqb negb].
  destruct (hash txMeta) as [[|c h]|]; [reflexivity|discriminate|reflexivity].
Qed.

Lemma missing_hash_fails_witness :
  check Examples.t_bare Examples.tx_unhashed ∅ =
    ({| droppedBlocksBufferByHash := ∅;
        trace := [Emit (tx_failed 4 noTxHashError)] |}, Normal tt) /\
  Error.name noTxHashError = "NoTxHashError"%string.
Proof.
  apply (missing_hash_fails Examples.t_bare Examples.tx_unhashed ∅); reflexivity.
Defined.



(** X7. When the ledger has no receipt and the item's nonce is still at or
    above the network's next nonce, the check emits nothing and does not
    touch the buffer: in particular a counter the hash already has is kept,
    not reset. *)
Theorem unconsumed_nonce_is_quiet (this : PendingTransactionTracker) (txMeta : TxMeta)
    (txHash : string) (b : gmap (option string) nat) (r : option Receipt) (n next : Z) :
  submitted txMeta -> observed txMeta txHash -> no_nonce_collision this txMeta ->
  getTransactionReceipt (query this) txHash = Normal r -> no_receipt r ->
  getTransactionCount (query this) (from (txParams txMeta)) = Normal next ->
  JS.parseInt16 (nonce (txParams txMeta)) = Some n -> next <= n ->
  check this txMeta b =
    ({| droppedBlocksBufferByHash := b;
        trace := [Call (ReqGetTransactionReceipt txHash);
                  Call (ReqGetTransactionCount (from (txParams txMeta)))] |},
     Normal tt).
Proof.
  intros Hsub Hobs Hfree Hq Hr Hcount Hn Hle.
  rewrite (check_no_receipt this txMeta txHash b r) by assumption.
  unfold _checkIfTxWasDropped. rewrite run_bind, run_await, Hcount, Hn. cbn [JS.ge].
  destruct (Z.leb_spec next n); [reflexivity|lia].
Qed.

Lemma unconsumed_nonce_is_quiet_witness :
  check (Examples.tracker Examples.q_behind [Examples.tx0] []) Examples.tx0
        {[ Some "0xabc"%string := 2%nat ]} =
    ({| droppedBlocksBufferByHash := {[ Some "0xabc"%string := 2%nat ]};
        trace := [Call (ReqGetTransactionReceipt "0xabc");
                  Call (ReqGetTransactionCount "0xf00")] |},
     Normal tt).
Proof.
  apply (unconsumed_nonce_is_quiet (Examples.tracker Examples.q_behind [Examples.tx0] [])
           Examples.tx0 "0xabc" {[ Some "0xabc"%string := 2%nat ]} None 2 2).
  - reflexivity.
  - split; [reflexivity|discriminate].
  - exists (fun _ => []). split; [reflexivity|]. intros o [].
  - reflexivity.
  - exact Logic.I.
  - reflexivity.
  - reflexivity.
  - lia.
Defined.

(** ** The counter over a series of checks *)

(** One check moves the entry of its item's hash by [bump] when it counts
    an observation, and leaves the buffer alone when it does not. *)
Lemma check_entry this txMeta b :
  (counted this txMeta ->
   droppedBlocksBufferByHash (checked this txMeta b) !! hash txMeta = bump (b !! hash txMeta) /\
   forall k, k <> hash txMeta ->
     droppedBlocksBufferByHash (checked this txMeta b) !! k = b !! k) /\
  (~ counted this txMeta -> droppedBlocksBufferByHash (checked this txMeta b) = b).
Proof.
  destruct (check_buffer this txMeta b) as [[Hb Hnot]|[Hyes Hres]]; split.
  - intros Hc. contradiction.
  - intros _. exact Hb.
  - intros _. destruct (bump (b !! hash txMeta)) as [n|]; destruct Hres as [-> _]; split.
    + apply lookup_insert_eq.
    + intros k Hk. apply lookup_insert_ne. congruence.
    + apply lookup_delete_eq.
    + intros k Hk. apply lookup_delete_ne. congruence.
  - intros Hc. contradiction.
Qed.

Lemma iter_bump_shift (m : nat) (c : option nat) :
  Nat.iter m bump (bump c) = bump (Nat.iter m bump c).
Proof. apply Nat.iter_swap. Qed.

(** The counter has period four: 1, 2, 3, and the drop. *)
Lemma iter_bump_cycle (q r : nat) :
  (r < 4)%nat ->
  Nat.iter (4 * q + r) bump None = if (r =? 0)%nat then None else Some r.
Proof.
  intros Hr. induction q as [|q IH].
  - destruct r as [|[|[|[|r]]]]; try reflexivity. lia.
  - replace (4 * S q + r)%nat with (S (S (S (S (4 * q + r))))) by lia.
    rewrite !Nat.iter_succ, IH.
    destruct r as [|[|[|[|r]]]]; try reflexivity. lia.
Qed.

(** X8. The debounce counts observations, consecutive or not.  Over any
    series of checks of one item, of which [m] count an observation, the
    entry of the item's hash ends where [m] steps of the counter take it,
    whatever the checks in between find (a nonce not yet consumed, a failed
    query); the other entries are unchanged.  From no entry, the entry after
    [m] counted observations is [m mod 4], with no entry at 0: every fourth
    counted observation declares the drop. *)
Theorem counter_counts_observations (txMeta : TxMeta)
    (ticks : list PendingTransactionTracker) (m : nat) (b : gmap (option string) nat) :
  counted_times txMeta ticks m ->
  fst (checks ticks txMeta b) !! hash txMeta = Nat.iter m bump (b !! hash txMeta) /\
  (forall k, k <> hash txMeta -> fst (checks ticks txMeta b) !! k = b !! k) /\
  (b !! hash txMeta = None ->
   fst (checks ticks txMeta b) !! hash txMeta =
   if (m mod 4 =? 0)%nat then None else Some (m mod 4)%nat).
Proof.
  intros Hm.
  assert (Hmain :
    fst (checks ticks txMeta b) !! hash txMeta = Nat.iter m bump (b !! hash txMeta) /\
    (forall k, k <> hash txMeta -> fst (checks ticks txMeta b) !! k = b !! k)).
  { revert b. induction Hm as [|this ticks m Hc _ IH|this ticks m Hc _ IH]; intros b.
    - split; [reflexivity|]. intros k _. reflexivity.
    - cbn [checks]. destruct (check_entry this txMeta b) as [Hyes _].
      destruct (Hyes Hc) as [Hh Hk].
      specialize (IH (droppedBlocksBufferByHash (checked this txMeta b))).
      destruct (checks ticks txMeta _) as [b' evs]. cbn [fst] in *.
      destruct IH as [IH1 IH2]. split.
      + rewrite IH1, Hh, Nat.iter_succ. apply iter_bump_shift.
      + intros k Hne. rewrite IH2 by assumption. apply Hk, Hne.
    - cbn [checks]. destruct (check_entry this txMeta b) as [_ Hno].
      rewrite (Hno Hc). specialize (IH b).
      destruct (checks ticks txMeta b) as [b' evs]. exact IH. }
  destruct Hmain as [H1 H2]. split; [exact H1|]. split; [exact H2|].
  intros Hb. rewrite H1, Hb.
  pose proof (iter_bump_cycle (m / 4) (m mod 4)) as Hcycle.
  rewrite <- (Nat.div_mod_eq m 4) in Hcycle.
  apply Hcycle, Nat.mod_upper_bound. lia.
Qed.

Lemma t0_counts_tx0 : counted Examples.t0 Examples.tx0.
Proof.
  apply (superseded_counted Examples.t0 Examples.tx0 "0xabc").
  - reflexivity.
  - split; [reflexivity|discriminate].
  - exact t0_supersedes_tx0.
Defined.

Lemma q_behind_does_not_count :
  ~ counted (Examples.tracker Examples.q_behind [Examples.tx0] []) Examples.tx0.
Proof.
  intros (_ & _ & _ & _ & (next & Hcount & Hge)).
  cbn in Hcount. injection Hcount as <-. discriminate Hge.
Defined.

Lemma counter_counts_observations_witness :
  fst (checks [Examples.t0; Examples.tracker Examples.q_behind [Examples.tx0] [];
               Examples.t0; Examples.t0] Examples.tx0 ∅) !! Some "0xabc"%string =
  Some 3%nat.
Proof.
  destruct (counter_counts_observations Examples.tx0
              [Examples.t0; Examples.tracker Examples.q_behind [Examples.tx0] [];
               Examples.t0; Examples.t0] 3 ∅) as (_ & _ & Hentry).
  - apply counted_yes; [exact t0_counts_tx0|].
    apply counted_no; [exact q_behind_does_not_count|].
    apply counted_yes; [exact t0_counts_tx0|].
    apply counted_yes; [exact t0_counts_tx0|].
    apply counted_nil.
  - exact (Hentry eq_refl).
Defined.

(** X9. A nonce that does not parse as a hexadecimal number is treated as
    consumed: the comparison of [NaN] with the network's next nonce is
    false, so a check that finds no receipt counts an observation whatever
    the next nonce is, and the item is dropped by the debounce like one
    whose nonce was taken. *)
Theorem unparsable_nonce_is_counted (this : PendingTransactionTracker) (txMeta : TxMeta)
    (txHash : string) (b : gmap (option string) nat) (r : option Receipt) (next : Z) :
  submitted txMeta -> observed txMeta txHash -> no_nonce_collision this txMeta ->
  getTransactionReceipt (query this) txHash = Normal r -> no_receipt r ->
  getTransactionCount (query this) (from (txParams txMeta)) = Normal next ->
  JS.parseInt16 (nonce (txParams txMeta)) = None ->
  check this txMeta b =
  let asked := [Call (ReqGetTransactionReceipt txHash);
                Call (ReqGetTransactionCount (from (txParams txMeta)))] in
  match bump (b !! Some txHash) with
  | Some n =>
      ({| droppedBlocksBufferByHash := <[Some txHash := n]> b; trace := asked |}, Normal tt)
  | None =>
      ({| droppedBlocksBufferByHash := delete (Some txHash) b;
          trace := asked ++ [Emit (tx_dropped (id txMeta))] |}, Normal tt)
  end.
Proof.
  intros Hsub Hobs Hfree Hq Hr Hcount Hnan.
  rewrite (check_no_receipt this txMeta txHash b r) by assumption.
  rewrite (run_dropped_counted this txMeta _ next).
  - destruct Hobs as [Hh _]. rewrite Hh. cbn [init log droppedBlocksBufferByHash trace app].
    destruct (bump (b !! Some txHash)); reflexivity.
  - assumption.
  - rewrite Hnan. reflexivity.
Qed.

Lemma unparsable_nonce_is_counted_witness :
  check (Examples.tracker Examples.q0 [Examples.tx_odd] []) Examples.tx_odd
        {[ Some "0xeee"%string := 3%nat ]} =
  ({| droppedBlocksBufferByHash := delete (Some "0xeee"%string) {[ Some "0xeee"%string := 3%nat ]};
      trace := [Call (ReqGetTransactionReceipt "0xeee");
                Call (ReqGetTransactionCount "0xf00")] ++ [Emit (tx_dropped 5)] |},
   Normal tt).
Proof.
  etransitivity;
    [apply (unparsable_nonce_is_counted (Examples.tracker Examples.q0 [Examples.tx_odd] [])
              Examples.tx_odd "0xeee" {[ Some "0xeee"%string := 3%nat ]} None 5)
    |reflexivity].
  - reflexivity.
  - split; [reflexivity|discriminate].
  - exists (fun _ => []). split; [reflexivity|]. intros o [].
  - reflexivity.
  - exact Logic.I.
  - reflexivity.
  - reflexivity.
Defined.

(** ** The nonce test and the failures of a check *)

Lemma nonce_test_throws_iff this txMeta e :
  _checkIfNonceIsTaken this txMeta = Throw e <->
  getCompletedTransactions this = None /\
  e = Error.TypeError "this.getCompletedTransactions is not a function".
Proof.
  unfold _checkIfNonceIsTaken. destruct (getCompletedTransactions this) as [gc|].
  - split; [discriminate|]. intros [H _]. discriminate.
  - split.
    + intros H. injection H as <-. auto.
    + intros [_ ->]. reflexivity.
Qed.

(** X10. The nonce test [_checkIfNonceIsTaken] answers true exactly when
    some completed item of the item's sender has another identity and the
    same nonce (as a string), false exactly when the completed-set provider
    is there and none has, and throws a TypeError exactly when the provider
    is missing.  The item itself, when it is among the completed ones, does
    not count. *)
Theorem nonce_test_outcomes (this : PendingTransactionTracker) (txMeta : TxMeta) :
  (_checkIfNonceIsTaken this txMeta = Normal true <-> nonce_collision this txMeta) /\
  (_checkIfNonceIsTaken this txMeta = Normal false <-> no_nonce_collision this txMeta) /\
  (forall e,
     _checkIfNonceIsTaken this txMeta = Throw e <->
     getCompletedTransactions this = None /\
     e = Error.TypeError "this.getCompletedTransactions is not a function") /\
  (forall getCompleted,
     getCompletedTransactions this = Some getCompleted ->
     Forall (fun otherMeta => id otherMeta = id txMeta)
            (getCompleted (from (txParams txMeta))) ->
     _checkIfNonceIsTaken this txMeta = Normal false).
Proof.
  split; [apply nonce_taken_iff|]. split; [apply nonce_free_iff|].
  split; [intros e; apply nonce_test_throws_iff|].
  intros gc Hgc Hall. apply nonce_free_iff. exists gc. split; [exact Hgc|].
  intros o Hin. left. rewrite Forall_forall in Hall. apply Hall, list_elem_of_In, Hin.
Qed.

Lemma check_fails_code this txMeta b e :
  snd (check this txMeta b) = Throw e <->
  status txMeta = "submitted"%string /\
  exists txHash,
    (hash txMeta = Some txHash /\ txHash <> ""%string) /\
    (_checkIfNonceIsTaken this txMeta = Throw e \/
     _checkIfNonceIsTaken this txMeta = Normal false /\
     exists r,
       getTransactionReceipt (query this) txHash = Normal r /\ no_receipt r /\
       getTransactionCount (query this) (from (txParams txMeta)) = Throw e).
Proof.
  unfold check, _checkPendingTx.
  destruct (String.eqb_spec (status txMeta) "submitted") as [Hsub|Hsub]; cbn [negb].
  2:{ split; [discriminate|]. intros [H _]. contradiction. }
  destruct (hash txMeta) as [[|c h]|] eqn:Hh.
  1,3: split; [discriminate|]; intros (_ & txHash & [Heq Hne] & _); congruence.
  run_simpl.
  destruct (_checkIfNonceIsTaken this txMeta) as [[|]|e0] eqn:Htaken; run_simpl.
  - split; [discriminate|]. intros (_ & txHash & _ & [H|[H _]]); discriminate.
  - destruct (getTransactionReceipt (query this) (String c h)) as [r|e1] eqn:Hq; run_simpl.
    2:{ split; [discriminate|].
        intros (_ & txHash & [Heq _] & [H|(_ & r & Hq' & _)]); [discriminate|].
        injection Heq as <-. congruence. }
    assert (Hdetect : no_receipt r ->
      snd match run (_checkIfTxWasDropped this txMeta
                       (log (Call (ReqGetTransactionReceipt (String c h))) (init b))) with
          | (s', Normal a) => run ((if a then emit (tx_dropped (id txMeta)) else ret tt) s')
          | (s', Throw e2) => (s', Throw e2)
          end = Throw e <->
      getTransactionCount (query this) (from (txParams txMeta)) = Throw e).
    { intros _. unfold _checkIfTxWasDropped. rewrite run_bind, run_await.
      destruct (getTransactionCount (query this) (from (txParams txMeta))) as [next|e2].
      - destruct (JS.ge _ _); [run_simpl; split; discriminate|].
        rewrite counting_run. destruct (bump _); run_simpl; split; discriminate.
      - cbn [snd]. split; congruence. }
    assert (Hgoal : no_receipt r ->
      getTransactionCount (query this) (from (txParams txMeta)) = Throw e <->
      status txMeta = "submitted"%string /\
      exists txHash,
        (Some (String c h) = Some txHash /\ txHash <> ""%string) /\
        (Normal false = Throw e \/
         Normal false = Normal false /\
         exists r0,
           getTransactionReceipt (query this) txHash = Normal r0 /\ no_receipt r0 /\
           getTransactionCount (query this) (from (txParams txMeta)) = Throw e)).
    { intros Hr. split.
      - intros Hc. split; [exact Hsub|]. exists (String c h).
        split; [split; [reflexivity|discriminate]|]. right. split; [reflexivity|].
        exists r. auto.
      - intros (_ & txHash & _ & [H|(_ & r0 & _ & _ & Hc)]); [discriminate|exact Hc]. }
    assert (Hconfirmed : ~ no_receipt r ->
      ~ (status txMeta = "submitted"%string /\
         exists txHash,
           (Some (String c h) = Some txHash /\ txHash <> ""%string) /\
           (Normal false = Throw e \/
            Normal false = Normal false /\
            exists r0,
              getTransactionReceipt (query this) txHash = Normal r0 /\ no_receipt r0 /\
              getTransactionCount (query this) (from (txParams txMeta)) = Throw e))).
    { intros Hnot (_ & txHash & [Heq _] & [H|(_ & r0 & Hq' & Hr0 & _)]); [discriminate|].
      injection Heq as <-. rewrite Hq in Hq'. injection Hq' as <-. contradiction. }
    destruct r as [receipt|].
    + destruct (JS.truthy (blockNumber receipt)) eqn:Hnum.
      * assert (Hnot : ~ no_receipt (Some receipt)) by (cbn; congruence).
        run_simpl.
        destruct (getBlockByHash (query this) (blockHash receipt) false) as [[blk|]|e2];
          run_simpl; (split; [discriminate|]); intros H; destruct (Hconfirmed Hnot H).
      * run_simpl. rewrite (Hdetect Hnum). apply Hgoal, Hnum.
    + run_simpl. rewrite (Hdetect Logic.I). apply Hgoal. exact Logic.I.
  - split.
    + intros H. injection H as ->. split; [exact Hsub|]. exists (String c h).
      split; [split; [reflexivity|discriminate]|]. left. reflexivity.
    + intros (_ & txHash & _ & [H|[H _]]); [congruence|discriminate].
Qed.

(** X11. A check fails in exactly two ways, both for a submitted item with
    an observed hash: the completed-set provider is missing (a TypeError,
    before any query), or no completed item holds the nonce, the ledger has
    no receipt, and the query for the sender's next nonce fails (with that
    query's error).  Every other failure is handled inside the check. *)
Theorem check_fails_iff (this : PendingTransactionTracker) (txMeta : TxMeta)
    (b : gmap (option string) nat) (e : Error.t) :
  snd (check this txMeta b) = Throw e <->
  submitted txMeta /\
  exists txHash,
    observed txMeta txHash /\
    ((getCompletedTransactions this = None /\
      e = Error.TypeError "this.getCompletedTransactions is not a function") \/
     (no_nonce_collision this txMeta /\
      exists r,
        getTransactionReceipt (query this) txHash = Normal r /\ no_receipt r /\
        getTransactionCount (query this) (from (txParams txMeta)) = Throw e)).
Proof.
  rewrite check_fails_code. unfold submitted, observed. split.
  - intros (Hsub & txHash & Hobs & [Hthrow|[Hfree Hq]]); (split; [exact Hsub|]);
      exists txHash; (split; [exact Hobs|]).
    + left. exact (proj1 (nonce_test_throws_iff _ _ _) Hthrow).
    + right. split; [exact (proj1 (nonce_free_iff _ _) Hfree)|exact Hq].
  - intros (Hsub & txHash & Hobs & [Hmissing|[Hfree Hq]]); (split; [exact Hsub|]);
      exists txHash; (split; [exact Hobs|]).
    + left. exact (proj2 (nonce_test_throws_iff _ _ _) Hmissing).
    + right. split; [exact (proj2 (nonce_free_iff _ _) Hfree)|exact Hq].
Qed.

(** ** Resubmission: what is left of [_resubmitTx] and its handler *)

Lemma not_in_announced_retry txMeta latestBlockNumber item :
  ~ In (tx_retry item) (events (announced txMeta latestBlockNumber)).
Proof.
  rewrite events_announced. destruct (JS.truthy _); cbn; intros H;
    repeat (destruct H as [H|H]; [discriminate|]); exact H.
Qed.

(** X12. A resubmission emits retry exactly when it has broadcast the signed
    payload and the broadcast has answered a hash: then it emits it once,
    after the call, and returns that hash.  In every other case (skipped by
    the backoff, approval of an unsigned item, a failed broadcast, a missing
    function) it emits no retry and returns no hash. *)
Theorem retry_iff_broadcast (this : PendingTransactionTracker) (txMeta : TxMeta)
    (latestBlockNumber : string) (b : gmap (option string) nat) :
  let s := fst (resubmit this txMeta latestBlockNumber b) in
  let c := snd (resubmit this txMeta latestBlockNumber b) in
  (exists raw publish txHash,
      rawTx txMeta = Some raw /\
      publishTransaction this = Some publish /\
      publish raw = Normal txHash /\
      JS.le (txBlockDistance txMeta latestBlockNumber) (Some (2 ^ retries txMeta - 1)) = false /\
      trace s = announced txMeta latestBlockNumber ++
                [Call (ReqPublishTransaction raw); Emit (tx_retry txMeta)] /\
      c = Normal (Some txHash)) \/
  ((forall item, ~ In (tx_retry item) (events (trace s))) /\
   (forall txHash, c <> Normal (Some txHash))).
Proof.
  cbv zeta. rewrite resubmit_eval. cbv zeta.
  destruct (JS.le _ _) eqn:Hle.
  { right. cbn [fst snd trace]. split; [|discriminate].
    intros item. apply not_in_announced_retry. }
  destruct (rawTx txMeta) as [raw|] eqn:Hraw.
  - destruct (publishTransaction this) as [publish|] eqn:Hp.
    + destruct (publish raw) as [txHash|e] eqn:Hpub.
      * left. exists raw, publish, txHash. cbn [fst snd trace]. auto 10.
      * right. cbn [fst snd trace]. split; [|discriminate].
        intros item. rewrite events_app. intros Hin. apply in_app_or in Hin as [Hin|[]].
        exact (not_in_announced_retry _ _ _ Hin).
    + right. cbn [fst snd trace]. split; [|discriminate].
      intros item. apply not_in_announced_retry.
  - destruct (approveTransaction this) as [approve|].
    + right. cbn [fst snd trace]. split.
      * intros item. rewrite events_app. intros Hin. apply in_app_or in Hin as [Hin|[]].
        exact (not_in_announced_retry _ _ _ Hin).
      * intros txHash. destruct (approve (id txMeta)); discriminate.
    + right. cbn [fst snd trace]. split; [|discriminate].
      intros item. apply not_in_announced_retry.
Qed.




(** ** What the operations put in the trace, under every schedule *)

Lemma follows_act_if (R : State -> State -> Prop) a s :
  R s (log a s) -> follows R s (act a s).
Proof. intros H. exact H. Qed.

Lemma follows_await_if {A} (R : State -> State -> Prop) rq (c : Completion A) s :
  (forall s', R s' s') -> R s (log (Call rq) s) -> follows R s (await rq c s).
Proof. intros Hrefl H. cbn. split; [exact H|]. intros s'. apply Hrefl. Qed.

Section Only.

Variable R : State -> State -> Prop.
Hypothesis R_refl : forall s, R s s.
Hypothesis R_trans : forall s1 s2 s3, R s1 s2 -> R s2 s3 -> R s1 s3.

Section Check_only.

Variable txMeta : TxMeta.
Hypothesis R_check : forall a s, check_action a = true -> R s (log a s).
Hypothesis R_insert : forall s n,
  R s (with_buffer (<[hash txMeta := n]> (droppedBlocksBufferByHash s)) s).
Hypothesis R_delete : forall s,
  R s (with_buffer (delete (hash txMeta) (droppedBlocksBufferByHash s)) s).

Ltac just :=
  first [ apply follows_await_if; [exact R_refl|apply R_check; reflexivity]
        | apply follows_act_if, R_check; reflexivity
        | apply R_refl ].

Lemma dropped_follows_only this s : follows R s (_checkIfTxWasDropped this txMeta s).
Proof.
  unfold _checkIfTxWasDropped.
  apply follows_bind; [exact R_trans|just|]. intros next s'.
  destruct (JS.ge _ _); [just|].
  apply follows_sync; [apply counting_sync|]. rewrite counting_run.
  destruct (bump _) as [n|]; cbn [fst]; [apply R_insert|apply R_delete].
Qed.

Lemma check_follows_only this s : follows R s (_checkPendingTx this txMeta s).
Proof.
  pose proof (dropped_follows_only this) as Hdropped.
  unfold _checkPendingTx, emit.
  destruct (negb _); [just|].
  destruct (hash txMeta) as [[|c h]|]; [just| |just].
  apply follows_bind; [exact R_trans|just|]. intros taken s1.
  destruct taken; [just|].
  apply follows_bind; [exact R_trans| |].
  - apply follows_try_catch; [exact R_trans| |].
    + apply follows_bind; [exact R_trans|just|]. intros [receipt|] s2; [|just].
      destruct (JS.truthy _); [|just].
      apply follows_bind; [exact R_trans|just|]. intros [blk|] s3; [|just].
      apply follows_bind; [exact R_trans|just|]. intros _ s4. just.
    + intros e s2.
      apply follows_bind; [exact R_trans|just|]. intros _ s3.
      apply follows_bind; [exact R_trans|just|]. intros _ s4. just.
  - intros [|] s2; [just|].
    apply follows_bind; [exact R_trans|apply Hdropped|].
    intros [|] s3; just.
Qed.

End Check_only.

Section Resubmit_only.

Hypothesis R_resubmit : forall a s, resubmit_action a = true -> R s (log a s).

Ltac just :=
  first [ apply follows_await_if; [exact R_refl|apply R_resubmit; reflexivity]
        | apply follows_act_if, R_resubmit; reflexivity
        | apply R_refl ].

Lemma resubmit_one_follows_only this blockNumber txMeta s :
  follows R s (resubmit_one this blockNumber txMeta s).
Proof.
  unfold resubmit_one, emit. apply follows_try_catch; [exact R_trans| |].
  - apply follows_bind; [exact R_trans| |intros; just].
    unfold _resubmitTx, emit.
    apply follows_bind; [exact R_trans|destruct (negb _); just|]. intros _ s1.
    destruct (JS.le _ _); [just|].
    destruct (rawTx txMeta) as [raw|].
    + destruct (publishTransaction this) as [publish|]; [|just].
      apply follows_bind; [exact R_trans|just|]. intros txHash s2.
      apply follows_bind; [exact R_trans|just|]. intros _ s3. just.
    + destruct (approveTransaction this) as [approve|]; [|just].
      apply follows_bind; [exact R_trans|just|]. intros _ s2. just.
  - intros e s1. unfold resubmit_catch, emit.
    destruct (isKnownTx _); [just|].
    apply follows_bind; [exact R_trans|just|]. intros _ s2. just.
Qed.

End Resubmit_only.

End Only.

Lemma appends_refl P s : appends P s s.
Proof. exists []. split; [now rewrite app_nil_r|constructor]. Qed.

Lemma appends_trans P s1 s2 s3 : appends P s1 s2 -> appends P s2 s3 -> appends P s1 s3.
Proof.
  intros (l1 & H1 & Hl1) (l2 & H2 & Hl2). exists (l1 ++ l2).
  split; [now rewrite H2, H1, app_assoc|]. apply Forall_app. auto.
Qed.

Lemma appends_log (P : Action -> bool) a s : P a = true -> appends P s (log a s).
Proof. intros Ha. exists [a]. split; [reflexivity|]. repeat constructor. exact Ha. Qed.

Lemma appends_buffer P b s : appends P s (with_buffer b s).
Proof. exists []. split; [cbn; now rewrite app_nil_r|constructor]. Qed.

(** ** No resubmission is ever rejected *)

Lemma fulfils_bind {A B} (m : Async A) (f : A -> Async B) (s : State) :
  fulfils (m s) -> (forall a s', fulfils (f a s')) -> fulfils (bind m f s).
Proof.
  unfold bind. intros Hm Hf.
  induction (m s) as [s0 [a|e]|s0 k IH]; cbn in *; [apply Hf|contradiction|].
  intros s'. apply IH, Hm.
Qed.

Lemma fulfils_try_catch {A} (m : Async A) (h : Error.t -> Async A) (s : State) :
  (forall e s', fulfils (h e s')) -> fulfils (try_catch m h s).
Proof.
  unfold try_catch. intros Hh.
  induction (m s) as [s0 [a|e]|s0 k IH]; cbn; [exact Logic.I|apply Hh|].
  intros s'. apply IH.
Qed.

Lemma resubmit_one_fulfils this blockNumber txMeta s :
  fulfils (resubmit_one this blockNumber txMeta s).
Proof.
  unfold resubmit_one. apply fulfils_try_catch. intros e s'. unfold resubmit_catch.
  destruct (isKnownTx _); [exact Logic.I|].
  apply fulfils_bind; [exact Logic.I|]. intros _ s1. exact Logic.I.
Qed.

Lemma to_promise_fulfils (p : Step unit) : fulfils p -> promise_fulfils (snd (to_promise p)).
Proof. destruct p as [s [[]|e]|s k]; cbn; auto. Qed.

Lemma start_all_fulfils (ms : list (Async unit)) (s : State) :
  Forall (fun m => forall s', fulfils (m s')) ms ->
  Forall promise_fulfils (snd (start_all ms s)).
Proof.
  intros Hms. revert s. induction Hms as [|m ms Hm _ IH]; intros s; cbn; [constructor|].
  pose proof (to_promise_fulfils (m s) (Hm s)) as Ht.
  destruct (to_promise (m s)) as [s1 t]. specialize (IH s1).
  destruct (start_all ms s1) as [s2 ts]. constructor; assumption.
Qed.

Lemma deliver_fulfils (i : nat) (s : State) (ts : list Promise) :
  Forall promise_fulfils ts -> Forall promise_fulfils (snd (deliver i (s, ts))).
Proof.
  intros Hts. cbn. destruct (ts !! i) as [t|] eqn:Hi; [|exact Hts].
  assert (Ht : promise_fulfils t).
  { rewrite Forall_forall in Hts. apply Hts. eapply list_elem_of_lookup_2, Hi. }
  destruct t as [k|c]; cbn.
  - pose proof (to_promise_fulfils (k s) (Ht s)) as Ht'.
    destruct (to_promise (k s)) as [s' t']. apply Forall_insert; assumption.
  - apply Forall_insert; assumption.
Qed.

Lemma fulfils_no_rejection (ts : list Promise) :
  Forall promise_fulfils ts -> first_rejection ts = None.
Proof.
  induction 1 as [|t ts Ht _ IH]; [reflexivity|].
  destruct t as [k|[[]|e]]; cbn in *; [exact IH|exact IH|contradiction].
Qed.


(** ** The reconcile tick, under every schedule *)

Lemma releases_app (l1 l2 : list Action) : releases (l1 ++ l2) = (releases l1 + releases l2)%nat.
Proof. unfold releases. now rewrite filter_app, length_app. Qed.

Lemma releases_check (l : list Action) :
  Forall (fun a => check_action a = true) l -> releases l = 0%nat.
Proof.
  unfold releases. induction 1 as [|a l Ha _ IH]; [reflexivity|].
  rewrite filter_cons. destruct (decide (is_release a = true)) as [Hr|_]; [|exact IH].
  destruct a; discriminate.
Qed.

Lemma check_is_tick_action (l : list Action) :
  Forall (fun a => check_action a = true) l -> Forall (fun a => tick_action a = true) l.
Proof.
  intros Hl. eapply Forall_impl; [exact Hl|].
  intros a Ha. cbn in *. unfold tick_action. now rewrite Ha.
Qed.

(** What a state of a reconcile tick that started in [s] looks like. *)
Lemma continue_trace (s s1 : State) (ts : list Promise) (l : list Action) :
  trace s1 = trace s ++ l ->
  Forall (fun a => tick_action a = true) l ->
  releases l = 0%nat ->
  exists l', trace (tick_state (continue s1 ts)) = trace s ++ l' /\
             Forall (fun a => tick_action a = true) l' /\
             releases l' = match tick_result (continue s1 ts) with
                           | Some (Normal _) => 1%nat
                           | _ => 0%nat
                           end.
Proof.
  intros Htr Hl Hrel. unfold continue. destruct (promise_all ts) as [batch|].
  - rewrite rest_run. destruct batch as [[]|e]; cbn; rewrite Htr, <- ?app_assoc.
    + exists (l ++ [ReleaseLock]). split; [reflexivity|]. split.
      * apply Forall_app. split; [exact Hl|]. repeat constructor.
      * rewrite releases_app, Hrel. reflexivity.
    + eexists (l ++ [LogError _; LogErrorObject e; ReleaseLock]).
      split; [reflexivity|]. split.
      * apply Forall_app. split; [exact Hl|]. repeat constructor.
      * rewrite releases_app, Hrel. reflexivity.
  - exists l. cbn. auto.
Qed.

Lemma reconcile_trace (this : PendingTransactionTracker) (schedule : list nat) (s : State) :
  (exists l, trace (tick_state (updatePendingTxs this schedule s)) = trace s ++ l /\
             Forall (fun a => tick_action a = true) l /\
             releases l = match tick_result (updatePendingTxs this schedule s) with
                          | Some (Normal _) => 1%nat
                          | _ => 0%nat
                          end) /\
  Forall (promise_follows (appends check_action))
    (tick_promises (updatePendingTxs this schedule s)).
Proof.
  unfold updatePendingTxs.
  assert (Hcheck : forall pending,
            Forall (fun m : Async unit => forall s', follows (appends check_action) s' (m s'))
              (map (_checkPendingTx this) pending)).
  { intros pending. apply Forall_map, Forall_forall. intros txMeta _ s'.
    apply check_follows_only.
    - apply appends_refl.
    - apply appends_trans.
    - intros a s0. apply appends_log.
    - intros s0 n. apply appends_buffer.
    - intros s0. apply appends_buffer. }
  assert (Hstart :
    (exists l, trace (tick_state (updatePendingTxs_start this s)) = trace s ++ l /\
               Forall (fun a => tick_action a = true) l /\
               releases l = match tick_result (updatePendingTxs_start this s) with
                            | Some (Normal _) => 1%nat
                            | _ => 0%nat
                            end) /\
    Forall (promise_follows (appends check_action))
      (tick_promises (updatePendingTxs_start this s))).
  { unfold updatePendingTxs_start.
    destruct (nonceTracker this) as [nt|].
    2:{ split; [|constructor]. exists []. cbn. rewrite app_nil_r. repeat split. constructor. }
    destruct (getGlobalLock nt) as [[]|e].
    2:{ split; [|constructor]. exists [Call ReqGetGlobalLock]. cbn.
        repeat split. repeat constructor. }
    destruct (getPendingTransactions this) as [pending|].
    - destruct (start_all_follows (appends check_action) (appends_refl _) (appends_trans _)
                  (map (_checkPendingTx this) pending) (log (Call ReqGetGlobalLock) s)
                  (Hcheck pending)) as [(l & Hl & Hall) Hts].
      destruct (start_all _ _) as [s1 ts]. cbn [fst snd] in *.
      rewrite continue_promises. split; [|exact Hts].
      apply (continue_trace s s1 ts (Call ReqGetGlobalLock :: l)).
      + rewrite Hl. cbn. now rewrite <- app_assoc.
      + constructor; [reflexivity|apply check_is_tick_action, Hall].
      + change (Call ReqGetGlobalLock :: l) with ([Call ReqGetGlobalLock] ++ l).
        rewrite releases_app, (releases_check l Hall). reflexivity.
    - rewrite rest_run. split; [|constructor]. cbn.
      eexists [Call ReqGetGlobalLock; LogError _; LogErrorObject _; ReleaseLock].
      rewrite <- !app_assoc. repeat split. repeat constructor. }
  revert Hstart. generalize (updatePendingTxs_start this s) as t.
  induction schedule as [|i schedule IH]; intros t Ht; cbn [foldl]; [exact Ht|].
  apply IH. destruct Ht as [(l & Hl & Hall & Hrel) Hts].
  destruct (deliver_follows (appends check_action) (appends_refl _) i
              (tick_state t) (tick_promises t) Hts) as [(l2 & Hl2 & Hall2) Hts'].
  rewrite tick_deliver_promises. split; [|exact Hts'].
  unfold tick_deliver.
  destruct (deliver i (tick_state t, tick_promises t)) as [s' ts']. cbn [fst snd] in *.
  destruct (tick_result t) as [c|].
  - cbn. exists (l ++ l2). split; [now rewrite Hl2, Hl, app_assoc|]. split.
    + apply Forall_app. split; [exact Hall|apply check_is_tick_action, Hall2].
    + rewrite releases_app, (releases_check l2 Hall2), Hrel. lia.
  - apply (continue_trace s s' ts' (l ++ l2)).
    + now rewrite Hl2, Hl, app_assoc.
    + apply Forall_app. split; [exact Hall|apply check_is_tick_action, Hall2].
    + rewrite releases_app, (releases_check l2 Hall2), Hrel. reflexivity.
Qed.

(** X16. Whatever the tracker, the pending set and the order in which the
    answers arrive, a reconcile tick extends the trace by nothing but the
    notifications failed, dropped, confirmed and warning, the three ledger
    queries, the write of a warning, the taking of the lock, the two log
    lines and the release: it never emits retry or block-update and never
    calls the approve or broadcast function.  It releases the lock exactly
    once if it has returned normally and not at all otherwise. *)
Theorem reconcile_actions (this : PendingTransactionTracker) (schedule : list nat) (s : State) :
  exists l, trace (tick_state (updatePendingTxs this schedule s)) = trace s ++ l /\
            Forall (fun a => tick_action a = true) l /\
            releases l = match tick_result (updatePendingTxs this schedule s) with
                         | Some (Normal _) => 1%nat
                         | _ => 0%nat
                         end.
Proof. apply reconcile_trace. Qed.

(** Once the operation has returned and every check has settled, further
    answers change nothing. *)
Lemma deliver_settled (i : nat) (s : State) (ts : list Promise) :
  Forall (fun p => is_settled p = true) ts -> deliver i (s, ts) = (s, ts).
Proof.
  intros Hts. cbn. destruct (ts !! i) as [t|] eqn:Hi; [|reflexivity].
  assert (Ht : is_settled t = true).
  { rewrite Forall_forall in Hts. apply Hts. eapply list_elem_of_lookup_2, Hi. }
  destruct t as [k|c]; [discriminate|]. cbn. now rewrite list_insert_id.
Qed.

Lemma tick_deliver_idle (t : Tick) (i : nat) (c : Completion unit) :
  tick_result t = Some c ->
  Forall (fun p => is_settled p = true) (tick_promises t) ->
  tick_deliver t i = t.
Proof.
  intros Hc Hts. unfold tick_deliver. rewrite (deliver_settled i _ _ Hts), Hc.
  destruct t as [s ts r]. cbn in *. now subst.
Qed.

Lemma ticks_idle (more : list nat) (t : Tick) (c : Completion unit) :
  tick_result t = Some c ->
  Forall (fun p => is_settled p = true) (tick_promises t) ->
  foldl tick_deliver t more = t.
Proof.
  intros Hc Hts. induction more as [|i more IH]; [reflexivity|].
  cbn [foldl]. now rewrite (tick_deliver_idle t i c Hc Hts).
Qed.

(** A rejected check stays rejected. *)
Lemma insert_rejection (ts : list Promise) (i : nat) (t t' : Promise) :
  ts !! i = Some t ->
  (is_settled t = true -> t' = t) ->
  first_rejection (<[i := t']> ts) = None ->
  first_rejection ts = None.
Proof.
  revert i. induction ts as [|h ts IH]; intros i Hi Hsame; [discriminate|].
  destruct i as [|i]; cbn in *.
  - injection Hi as ->. destruct t as [k|c].
    + destruct t' as [k'|[[]|e]]; cbn; congruence.
    + now rewrite (Hsame eq_refl).
  - destruct h as [k|[[]|e]]; cbn; eauto.
Qed.

Lemma deliver_rejection (i : nat) (s : State) (ts : list Promise) :
  first_rejection (snd (deliver i (s, ts))) = None -> first_rejection ts = None.
Proof.
  cbn. destruct (ts !! i) as [t|] eqn:Hi; [|auto].
  destruct t as [k|c]; cbn.
  - destruct (to_promise (k s)) as [s' t']. cbn. apply (insert_rejection ts i _ t' Hi).
    discriminate.
  - apply (insert_rejection ts i _ _ Hi). reflexivity.
Qed.

Lemma forallb_settled (ts : list Promise) :
  forallb is_settled ts = true -> Forall (fun p => is_settled p = true) ts.
Proof.
  induction ts as [|t ts IH]; cbn; [constructor|].
  intros [Ht Hts]%andb_prop. constructor; auto.
Qed.

Lemma last_app_one {A} (l : list A) (a : A) : last (l ++ [a]) = Some a.
Proof. now rewrite last_snoc. Qed.

Lemma continue_clean (s : State) (ts : list Promise) :
  tick_result (continue s ts) = Some (Normal tt) ->
  first_rejection ts = None ->
  Forall (fun p => is_settled p = true) ts /\
  last (trace (tick_state (continue s ts))) = Some ReleaseLock.
Proof.
  unfold continue, promise_all. intros Hres Hrej. rewrite Hrej in *.
  destruct (forallb is_settled ts) eqn:Hall; [|discriminate].
  rewrite rest_run. cbn. split; [apply forallb_settled, Hall|apply last_app_one].
Qed.

(** X17. If the operation has returned and none of its checks is rejected
    then, whatever the order in which the answers arrived, every check has
    finished and the release of the lock is the last thing that happened:
    without a failing check, no check runs after the lock is released. *)
Theorem clean_tick_releases_last (this : PendingTransactionTracker) (schedule : list nat)
    (s : State) :
  tick_result (updatePendingTxs this schedule s) = Some (Normal tt) ->
  first_rejection (tick_promises (updatePendingTxs this schedule s)) = None ->
  Forall (fun p => is_settled p = true) (tick_promises (updatePendingTxs this schedule s)) /\
  last (trace (tick_state (updatePendingTxs this schedule s))) = Some ReleaseLock.
Proof.
  unfold updatePendingTxs.
  assert (Hstart :
    tick_result (updatePendingTxs_start this s) = Some (Normal tt) ->
    first_rejection (tick_promises (updatePendingTxs_start this s)) = None ->
    Forall (fun p => is_settled p = true) (tick_promises (updatePendingTxs_start this s)) /\
    last (trace (tick_state (updatePendingTxs_start this s))) = Some ReleaseLock).
  { unfold updatePendingTxs_start.
    destruct (nonceTracker this) as [nt|]; [|discriminate].
    destruct (getGlobalLock nt) as [[]|e]; [|discriminate].
    destruct (getPendingTransactions this) as [pending|].
    - destruct (start_all _ _) as [s1 ts]. rewrite continue_promises. apply continue_clean.
    - rewrite rest_run. cbn. intros _ _. split; [constructor|].
      apply last_app_one. }
  revert Hstart. generalize (updatePendingTxs_start this s) as t.
  induction schedule as [|i schedule IH]; intros t Ht; cbn [foldl]; [exact Ht|].
  apply IH. rewrite tick_deliver_promises. intros Hres Hrej.
  pose proof (deliver_rejection i _ _ Hrej) as Hrej0.
  destruct (tick_result t) as [c|] eqn:Hc.
  - assert (Hc' : c = Normal tt).
    { unfold tick_deliver in Hres. destruct (deliver _ _) as [s' ts'].
      rewrite Hc in Hres. cbn in Hres. congruence. }
    subst c. destruct (Ht eq_refl Hrej0) as [Hall Hlast].
    rewrite (tick_deliver_idle t i _ Hc Hall), (deliver_settled i _ _ Hall). auto.
  - unfold tick_deliver in *.
    destruct (deliver i (tick_state t, tick_promises t)) as [s' ts']. rewrite Hc in *.
    cbn [snd] in *. now apply continue_clean.
Qed.

Lemma clean_tick_releases_last_witness :
  Forall (fun p => is_settled p = true)
    (tick_promises (updatePendingTxs Examples.t0 [0; 0]%nat new_state)) /\
  last (trace (tick_state (updatePendingTxs Examples.t0 [0; 0]%nat new_state))) =
    Some ReleaseLock.
Proof.
  apply (clean_tick_releases_last Examples.t0 [0; 0]%nat new_state); reflexivity.
Defined.

(** X18. If the lock cannot be taken, the error reaches the caller of the
    operation: it is not logged, no check is started and nothing is
    released, whatever answers arrive later. *)
Theorem lock_failure_propagates (this : PendingTransactionTracker) (nonceTracker0 : NonceTracker)
    (e : Error.t) (schedule : list nat) (s : State) :
  nonceTracker this = Some nonceTracker0 ->
  getGlobalLock nonceTracker0 = Throw e ->
  updatePendingTxs this schedule s =
  {| tick_state := log (Call ReqGetGlobalLock) s; tick_promises := [];
     tick_result := Some (Throw e) |}.
Proof.
  intros Hnt Hlock. unfold updatePendingTxs, updatePendingTxs_start. rewrite Hnt, Hlock.
  apply (ticks_idle schedule _ (Throw e)); [reflexivity|constructor].
Qed.

Lemma lock_failure_propagates_witness :
  updatePendingTxs Examples.t_locked [0; 0]%nat new_state =
  {| tick_state := log (Call ReqGetGlobalLock) new_state; tick_promises := [];
     tick_result := Some (Throw Examples.lockError) |}.
Proof.
  apply (lock_failure_propagates Examples.t_locked
           {| getGlobalLock := Throw Examples.lockError |}); reflexivity.
Defined.

(** X19. If the lock is taken and the tracker was given no pending-set
    provider, the error of calling it is caught inside the operation: two
    log lines are written, the lock is released, and the operation returns
    normally, having started no check. *)
Theorem missing_provider_is_logged (this : PendingTransactionTracker)
    (nonceTracker0 : NonceTracker) (schedule : list nat) (s : State) :
  nonceTracker this = Some nonceTracker0 ->
  getGlobalLock nonceTracker0 = Normal tt ->
  getPendingTransactions this = None ->
  exists e,
    updatePendingTxs this schedule s =
    {| tick_state :=
         {| droppedBlocksBufferByHash := droppedBlocksBufferByHash s;
            trace := trace s ++
                     [Call ReqGetGlobalLock;
                      LogError "PendingTransactionTracker - Error updating pending transactions";
                      LogErrorObject e; ReleaseLock] |};
       tick_promises := [];
       tick_result := Some (Normal tt) |}.
Proof.
  intros Hnt Hlock Hp. eexists.
  unfold updatePendingTxs, updatePendingTxs_start. rewrite Hnt, Hlock, Hp, rest_run.
  rewrite (ticks_idle schedule _ (Normal tt)); [|reflexivity|constructor].
  unfold log. cbn. rewrite <- !app_assoc. reflexivity.
Qed.

Lemma missing_provider_is_logged_witness :
  exists e,
    updatePendingTxs Examples.t_unprovided [0]%nat new_state =
    {| tick_state :=
         {| droppedBlocksBufferByHash := ∅;
            trace := [Call ReqGetGlobalLock;
                      LogError "PendingTransactionTracker - Error updating pending transactions";
                      LogErrorObject e; ReleaseLock] |};
       tick_promises := [];
       tick_result := Some (Normal tt) |}.
Proof.
  apply (missing_provider_is_logged Examples.t_unprovided {| getGlobalLock := Normal tt |}
           [0]%nat new_state); reflexivity.
Defined.

(** X20. When the lock is taken and the pending set is read, a schedule
    that delivers at least two answers to every item brings the operation
    to its end: it returns normally, one promise per pending item is
    settled, the lock has been released exactly once, and answers that
    arrive afterwards change nothing. *)
Theorem fair_schedule_finishes (this : PendingTransactionTracker) (nonceTracker0 : NonceTracker)
    (pending : list TxMeta) (schedule more : list nat) (s : State) :
  nonceTracker this = Some nonceTracker0 ->
  getGlobalLock nonceTracker0 = Normal tt ->
  getPendingTransactions this = Some pending ->
  delivers_at_least 2 (length pending) schedule ->
  tick_result (updatePendingTxs this schedule s) = Some (Normal tt) /\
  length (tick_promises (updatePendingTxs this schedule s)) = length pending /\
  Forall (fun p => is_settled p = true) (tick_promises (updatePendingTxs this schedule s)) /\
  (exists l, trace (tick_state (updatePendingTxs this schedule s)) = trace s ++ l /\
             releases l = 1%nat) /\
  updatePendingTxs this (schedule ++ more) s = updatePendingTxs this schedule s.
Proof.
  intros Hnt Hlock Hp Hfair.
  destruct (updatePendingTxs_completes this schedule s nonceTracker0 pending Hnt Hlock Hp Hfair)
    as (Hres & _ & Hlen & Hall).
  destruct (reconcile_trace this schedule s) as [(l & Hl & _ & Hrel) _].
  rewrite Hres in Hrel.
  repeat split; [exact Hres|exact Hlen|exact Hall|exists l; auto|].
  unfold updatePendingTxs. rewrite foldl_app.
  apply (ticks_idle more _ (Normal tt)); assumption.
Qed.

Lemma fair_schedule_finishes_witness :
  tick_result (updatePendingTxs Examples.tAB [1; 0; 1; 0]%nat new_state) = Some (Normal tt) /\
  length (tick_promises (updatePendingTxs Examples.tAB [1; 0; 1; 0]%nat new_state)) = 2%nat /\
  Forall (fun p => is_settled p = true)
    (tick_promises (updatePendingTxs Examples.tAB [1; 0; 1; 0]%nat new_state)) /\
  (exists l, trace (tick_state (updatePendingTxs Examples.tAB [1; 0; 1; 0]%nat new_state)) =
             trace new_state ++ l /\ releases l = 1%nat) /\
  updatePendingTxs Examples.tAB ([1; 0; 1; 0] ++ [0; 1; 1])%nat new_state =
  updatePendingTxs Examples.tAB [1; 0; 1; 0]%nat new_state.
Proof.
  apply (fair_schedule_finishes Examples.tAB {| getGlobalLock := Normal tt |}
           [Examples.txA; Examples.txB] [1; 0; 1; 0]%nat [0; 1; 1]%nat new_state);
    try reflexivity.
  intros i Hi. destruct i as [|[|i]]; cbn in *; lia.
Defined.

(** ** Entries of items that are no longer pending *)

Lemma keeps_entry_refl k s : keeps_entry k s s.
Proof. reflexivity. Qed.

Lemma keeps_entry_trans k s1 s2 s3 :
  keeps_entry k s1 s2 -> keeps_entry k s2 s3 -> keeps_entry k s1 s3.
Proof. unfold keeps_entry. congruence. Qed.

Lemma keeps_entry_log k a s : keeps_entry k s (log a s).
Proof. reflexivity. Qed.

(** X21. A reconcile tick reads and writes the counter of an item under
    that item's hash only: the entry of the buffer under a key that is the
    hash of no pending item is after the tick what it was before, whatever
    the ledger answers and in whatever order.  So the operation never
    clears the counter of a transaction that has left the pending set. *)
Theorem reconcile_keeps_other_entries (this : PendingTransactionTracker)
    (pending : list TxMeta) (k : option string) (schedule : list nat) (s : State) :
  getPendingTransactions this = Some pending ->
  Forall (fun txMeta => hash txMeta <> k) pending ->
  droppedBlocksBufferByHash (tick_state (updatePendingTxs this schedule s)) !! k =
  droppedBlocksBufferByHash s !! k.
Proof.
  intros Hp Hpending. change (keeps_entry k s (tick_state (updatePendingTxs this schedule s))).
  unfold updatePendingTxs.
  assert (Hstart :
    keeps_entry k s (tick_state (updatePendingTxs_start this s)) /\
    Forall (promise_follows (keeps_entry k)) (tick_promises (updatePendingTxs_start this s))).
  { unfold updatePendingTxs_start.
    destruct (nonceTracker this) as [nt|]; [|split; [reflexivity|constructor]].
    destruct (getGlobalLock nt) as [[]|e]; [|split; [reflexivity|constructor]].
    rewrite Hp.
    destruct (start_all_follows (keeps_entry k) (keeps_entry_refl k) (keeps_entry_trans k)
                (map (_checkPendingTx this) pending) (log (Call ReqGetGlobalLock) s))
      as [H1 H2].
    { apply Forall_map. eapply Forall_impl; [exact Hpending|].
      intros txMeta Hne s'. cbn. apply check_follows_only.
      - apply keeps_entry_refl.
      - apply keeps_entry_trans.
      - intros a s0 _. apply keeps_entry_log.
      - intros s0 n. unfold keeps_entry. cbn. now apply lookup_insert_ne.
      - intros s0. unfold keeps_entry. cbn. now apply lookup_delete_ne. }
    destruct (start_all _ _) as [s1 ts]. cbn [fst snd] in *.
    rewrite continue_promises. split; [|exact H2].
    eapply keeps_entry_trans; [exact H1|].
    apply (continue_follows (keeps_entry k) (keeps_entry_refl k) (keeps_entry_trans k)
             (keeps_entry_log k)). }
  destruct Hstart as [H1 H2].
  destruct (ticks_follow (keeps_entry k) (keeps_entry_refl k) (keeps_entry_trans k)
              (keeps_entry_log k) schedule _ H2) as [H3 _].
  eapply keeps_entry_trans; eassumption.
Qed.

Lemma reconcile_keeps_other_entries_witness :
  droppedBlocksBufferByHash
    (tick_state (updatePendingTxs Examples.t0 [0; 0]%nat Examples.s_leftover))
    !! Some "0xdef"%string =
  droppedBlocksBufferByHash Examples.s_leftover !! Some "0xdef"%string.
Proof.
  apply (reconcile_keeps_other_entries Examples.t0 [Examples.tx0] (Some "0xdef"%string)
           [0; 0]%nat Examples.s_leftover).
  - reflexivity.
  - repeat constructor. discriminate.
Defined.
